(** * synceddb-fs-bun: the versioned record store of [index.ts]

    A shallow embedding of the request handlers of [src/index.ts]
    ([handleGet], [handlePost], [handlePut], [handleDelete], [handleFetch])
    and of the storage helpers they call, followed by the properties of the
    store's synchronisation protocol.

    Conventions of the embedding.
    - The file system under [STORAGE_PATH] is a finite map from paths to file
      contents.  A path [STORAGE_PATH/store/stem.json] is the pair
      [(store, stem)]; the handlers never look at any other file.
    - A file's content is kept as what [JSON.parse] makes of it: either the
      parse fails, or it yields an [Entity], the type the source gives to the
      parse result.  [JSON.stringify] followed by [JSON.parse] is the identity
      on the entities the handlers write.
    - A request body is the JSON value [req.json()] resolves to, or [None]
      when it rejects.
    - Numbers are integers ([Z]), as the versions are; fractions and the
      rounding of doubles are left out.  Strings are sequences of 8-bit code
      units.
    - [new Date().toISOString()] is an input [now] of the writing handlers.
    - What the JavaScript runtime decides outside the language's core
      (date parsing, locale collation, numeric value of a string) is a
      parameter of the development, the class [Runtime]. *)

From Stdlib Require Import ZArith String Ascii List Bool Lia DecimalString.
From stdpp Require Import base option list gmap strings sorting.
Set Warnings "-register-all".

Open Scope Z_scope.
Open Scope string_scope.

(** ** JSON values and entities *)

Inductive json :=
| JNull
| JBool (b : bool)
| JNum (n : Z)
| JStr (s : string)
| JArr (items : list json)
| JObj (members : list (string * json)).

(** [type Entity = Record<string, unknown> & { id; version; updatedAt }]:
    the three typed fields, and the remaining members as [payload]. *)
Module Entity.
Record t := mk {
  id : string;
  version : Z;
  updatedAt : string;
  payload : list (string * json)
}.
End Entity.
Abbreviation Entity := Entity.t.

(** ** The runtime *)

Class Runtime := {
  (** [new Date(s).getTime()]; [None] is NaN (an invalid date). *)
  Date_getTime : string → option Z;
  (** [a.localeCompare(b)]. *)
  localeCompare : string → string → Z;
  (** The numeric value of a string, as [Number(s)] computes it; [None] is
      NaN. *)
  StringToNumber : string → option Z
}.

(** ** Errors *)

(** A computation either returns or throws. *)
Inductive result (A : Type) :=
| Ok (a : A)
| Throw (msg : string).
Arguments Ok {A} a.
Arguments Throw {A} msg.

#[global] Instance result_ret : MRet result := λ A a, Ok a.
#[global] Instance result_bind : MBind result := λ A B f r,
  match r with
  | Ok a => f a
  | Throw msg => Throw msg
  end.

(** ** Strings *)

Fixpoint string_filter (p : ascii → bool) (s : string) : string :=
  match s with
  | EmptyString => EmptyString
  | String c s' => if p c then String c (string_filter p s') else string_filter p s'
  end.

Fixpoint string_forallb (p : ascii → bool) (s : string) : bool :=
  match s with
  | EmptyString => true
  | String c s' => p c && string_forallb p s'
  end.

Definition is_empty (s : string) : bool :=
  match s with
  | EmptyString => true
  | String _ _ => false
  end.

Definition in_range (lo hi c : ascii) : bool :=
  (nat_of_ascii lo <=? nat_of_ascii c)%nat && (nat_of_ascii c <=? nat_of_ascii hi)%nat.

Definition is_digit (c : ascii) : bool := in_range "0" "9" c.

(** [a > b] on strings: lexicographic on code units. *)
Definition string_gt (a b : string) : bool :=
  match String.compare a b with
  | Gt => true
  | _ => false
  end.

Fixpoint join (sep : string) (l : list string) : string :=
  match l with
  | [] => ""
  | [x] => x
  | x :: l' => x +:+ sep +:+ join sep l'
  end.

(** [String(v)] for a JSON value. *)
Fixpoint ToString (v : json) : string :=
  match v with
  | JNull => "null"
  | JBool true => "true"
  | JBool false => "false"
  | JNum n => NilZero.string_of_int (Z.to_int n)
  | JStr s => s
  | JArr items =>
      join "," (map (λ x, match x with JNull => "" | _ => ToString x end) items)
  | JObj _ => "[object Object]"
  end.

(** [Number(v)]; [None] as argument is [undefined], [None] as result is
    NaN. *)
Definition ToNumber `{Runtime} (v : option json) : option Z :=
  match v with
  | None => None
  | Some JNull => Some 0
  | Some (JBool b) => Some (if b then 1 else 0)
  | Some (JNum n) => Some n
  | Some (JStr s) => StringToNumber s
  | Some (JArr items) => StringToNumber (ToString (JArr items))
  | Some (JObj _) => None
  end.

(** [a !== b] for a number [a] that may be NaN and a number [b]. *)
Definition number_ne (a : option Z) (b : Z) : bool :=
  match a with
  | Some n => negb (Z.eqb n b)
  | None => true
  end.

(** ** Objects *)

Fixpoint lookup_member (k : string) (members : list (string * json)) : option json :=
  match members with
  | [] => None
  | (k', v) :: rest => if String.eqb k k' then Some v else lookup_member k rest
  end.

(** [body.k] on a parsed body: a TypeError on [null], [undefined] on the
    other values that are not objects. *)
Definition get_prop (body : json) (k : string) : result (option json) :=
  match body with
  | JNull => Throw "TypeError"
  | JObj members => Ok (lookup_member k members)
  | _ => Ok None
  end.

Definition reserved (k : string) : bool :=
  String.eqb k "id" || String.eqb k "version" || String.eqb k "updatedAt".

(** The members that [{ ...body, id, version, updatedAt }] takes over from
    [body]: all but the three that the literal overrides.  Only an object
    reaches the spread: another body has no [id] and no [version]. *)
Definition spread (body : json) : list (string * json) :=
  match body with
  | JObj members => List.filter (λ kv, negb (reserved kv.1)) members
  | _ => []
  end.

(** ** Storage *)

Inductive FileContent :=
| Unparseable (text : string)
| Parsed (e : Entity).

Abbreviation FS := (gmap (string * string) FileContent).

(** [STORE_NAME_REGEX = /^[a-zA-Z0-9_-]+$/]. *)
Definition STORE_NAME_char (c : ascii) : bool :=
  in_range "a" "z" c || in_range "A" "Z" c || is_digit c
  || Ascii.eqb c "_" || Ascii.eqb c "-".

Definition STORE_NAME_REGEX_test (s : string) : bool :=
  negb (is_empty s) && string_forallb STORE_NAME_char s.

Definition assertValidStoreName (storeName : string) : result unit :=
  if negb (is_empty storeName) && STORE_NAME_REGEX_test storeName
  then Ok ()
  else Throw "Invalid store name".

(** [String(id).replace(/[/\\]/g, "")]. *)
Definition safeId (id : string) : string :=
  string_filter (λ c, negb (Ascii.eqb c "/" || Ascii.eqb c "\")) id.

Definition entityPath (storeName id : string) : result (string * string) :=
  _ ← assertValidStoreName storeName;
  if is_empty (safeId id) then Throw "Invalid id"
  else Ok (storeName, safeId id).

(** [mkdir -p] of the store directory: nothing a handler can observe. *)
Definition ensureStoreDir (storeName : string) : result unit :=
  assertValidStoreName storeName.

(** The stems of the [.json] files of the store directory, in the order
    [readdir] lists them. *)
Definition listEntityIds (fs : FS) (storeName : string) : result (list string) :=
  _ ← assertValidStoreName storeName;
  Ok (omap (λ kv : (string * string) * FileContent,
              if String.eqb kv.1.1 storeName then Some kv.1.2 else None)
           (map_to_list fs)).

Definition readEntity (fs : FS) (storeName id : string) : result (option Entity) :=
  path ← entityPath storeName id;
  match fs !! path with
  | None => Ok None
  | Some (Unparseable _) => Ok None
  | Some (Parsed e) => Ok (Some e)
  end.

Definition writeEntity (fs : FS) (storeName : string) (entity : Entity) : result FS :=
  _ ← ensureStoreDir storeName;
  path ← entityPath storeName (Entity.id entity);
  Ok (<[path := Parsed entity]> fs).

Fixpoint getAllEntities_loop (fs : FS) (storeName : string) (ids : list string)
    : result (list Entity) :=
  match ids with
  | [] => Ok []
  | id :: rest =>
      e ← readEntity fs storeName id;
      entities ← getAllEntities_loop fs storeName rest;
      Ok (match e with Some e => e :: entities | None => entities end)
  end.

Definition getAllEntities (fs : FS) (storeName : string) : result (list Entity) :=
  ids ← listEntityIds fs storeName;
  getAllEntities_loop fs storeName ids.

(** ** Responses *)

Inductive Body :=
| NoBody
| Text (s : string)
| EntityJson (e : Entity)
| PageJson (data : list Entity) (hasMore : bool)
| ErrorJson (error : string).

Record Response := { status : Z; body : Body }.

Definition jsonResponse (e : Entity) : Response :=
  {| status := 200; body := EntityJson e |}.

(** ** The writing handlers *)

Section Handlers.
Context `{Runtime}.

Definition handlePost (fs : FS) (storeName : string) (req : option json) (now : string)
    : result (Response * FS) :=
  match req with
  | None => Ok ({| status := 400; body := Text "Bad Request" |}, fs)
  | Some body =>
      id ← get_prop body "id";
      match id with
      | None | Some JNull => Ok ({| status := 400; body := Text "Bad Request" |}, fs)
      | Some id =>
          existing ← readEntity fs storeName (ToString id);
          match existing with
          | Some _ => Ok ({| status := 409; body := Text "Conflict" |}, fs)
          | None =>
              let entity :=
                {| Entity.id := ToString id; Entity.version := 1;
                   Entity.updatedAt := now; Entity.payload := spread body |} in
              fs' ← writeEntity fs storeName entity;
              Ok ({| status := 204; body := NoBody |}, fs')
          end
      end
  end.

Definition handlePut (fs : FS) (storeName id : string) (req : option json) (now : string)
    : result (Response * FS) :=
  existing ← readEntity fs storeName id;
  match existing with
  | None => Ok ({| status := 404; body := NoBody |}, fs)
  | Some existing =>
      match req with
      | None => Ok ({| status := 400; body := Text "Bad Request" |}, fs)
      | Some body =>
          let expectedVersion := Entity.version existing + 1 in
          version ← get_prop body "version";
          if number_ne (ToNumber version) expectedVersion
          then Ok ({| status := 409; body := EntityJson existing |}, fs)
          else
            let entity :=
              {| Entity.id := Entity.id existing; Entity.version := expectedVersion;
                 Entity.updatedAt := now; Entity.payload := spread body |} in
            fs' ← writeEntity fs storeName entity;
            Ok ({| status := 204; body := NoBody |}, fs')
      end
  end.

Definition handleDelete (fs : FS) (storeName id : string) (now : string)
    : result (Response * FS) :=
  existing ← readEntity fs storeName id;
  match existing with
  | None => Ok ({| status := 404; body := NoBody |}, fs)
  | Some existing =>
      let tombstone :=
        {| Entity.id := Entity.id existing; Entity.version := -1;
           Entity.updatedAt := now; Entity.payload := [] |} in
      fs' ← writeEntity fs storeName tombstone;
      Ok ({| status := 204; body := NoBody |}, fs')
  end.

End Handlers.

(** ** The change feed *)

(** White space that [parseInt] and [Number] skip (the code units below
    128 among them). *)
Definition is_space (c : ascii) : bool :=
  in_range "009" "013" c || Ascii.eqb c " ".

Fixpoint skip_spaces (s : string) : string :=
  match s with
  | String c s' => if is_space c then skip_spaces s' else s
  | EmptyString => EmptyString
  end.

Definition digit_value (c : ascii) : Z := Z.of_nat (nat_of_ascii c) - 48.

(** The value of the longest prefix of decimal digits; [acc] is [None] until
    a digit has been read. *)
Fixpoint read_digits (s : string) (acc : option Z) : option Z :=
  match s with
  | String c s' =>
      if is_digit c then read_digits s' (Some (10 * default 0 acc + digit_value c))
      else acc
  | EmptyString => acc
  end.

(** [parseInt(s, 10)]; [None] is NaN. *)
Definition parseInt (s : string) : option Z :=
  match skip_spaces s with
  | String "-" s' => Z.opp <$> read_digits s' None
  | String "+" s' => read_digits s' None
  | s' => read_digits s' None
  end.

(** [s.split(",")]. *)
Fixpoint split_comma (s : string) : list string :=
  match s with
  | EmptyString => [""]
  | String c s' =>
      if Ascii.eqb c ","
      then "" :: split_comma s'
      else match split_comma s' with
           | part :: parts => String c part :: parts
           | [] => [String c ""]
           end
  end.

(** A string used as a condition. *)
Definition truthy (s : option string) : bool :=
  match s with
  | Some s => negb (is_empty s)
  | None => false
  end.

(** [a > b] and [a === b] on numbers that may be NaN. *)
Definition number_gt (a b : option Z) : bool :=
  match a, b with
  | Some x, Some y => Z.ltb y x
  | _, _ => false
  end.

Definition number_eq (a b : option Z) : bool :=
  match a, b with
  | Some x, Some y => Z.eqb x y
  | _, _ => false
  end.

Fixpoint findIndex {A} (p : A → bool) (l : list A) : option nat :=
  match l with
  | [] => None
  | x :: l' => if p x then Some O else S <$> findIndex p l'
  end.

(** [Array.prototype.sort(cmp)]: the sort is stable, and a comparator result
    that is NaN counts as 0.  [precedes cmp y x] says that [cmp] puts [y]
    strictly before [x]. *)
Definition precedes {A} (cmp : A → A → option Z) (y x : A) : bool :=
  match cmp y x with
  | Some v => Z.ltb v 0
  | None => false
  end.

Fixpoint insert_sorted {A} (cmp : A → A → option Z) (x : A) (l : list A) : list A :=
  match l with
  | [] => [x]
  | y :: l' => if precedes cmp y x then y :: insert_sorted cmp x l' else x :: y :: l'
  end.

Definition sort {A} (cmp : A → A → option Z) (l : list A) : list A :=
  foldr (insert_sorted cmp) [] l.

(** The three query parameters [handleGet] reads from the URL, each as
    [searchParams.get] returns it. *)
Record Query := {
  param_size : option string;
  param_after : option string;
  param_after_id : option string
}.

Section Feed.
Context `{Runtime}.

Definition compareCursor (a b : Entity) : option Z :=
  match Date_getTime (Entity.updatedAt a), Date_getTime (Entity.updatedAt b) with
  | Some da, Some db =>
      if Z.eqb da db
      then Some (localeCompare (Entity.id a) (Entity.id b))
      else Some (da - db)
  | _, _ => None
  end.

(** [Math.min(Math.max(1, parseInt(size ?? "100", 10)), 1000)]; [None] is
    NaN, which [Math.max] and [Math.min] hand on. *)
Definition page_size (size : option string) : option Z :=
  n ← parseInt (default "100" size);
  Some (Z.min (Z.max 1 n) 1000).

(** The cursor of a request: [afterDate] ([None] for [null], else the time
    value of the date) and [afterIdVal]. *)
Definition cursor (after afterId : option string) : option (option Z) * option string :=
  if truthy afterId
  then (if truthy after then Some (Date_getTime (default "" after)) else None, afterId)
  else if truthy after
  then match split_comma (default "" after) with
       | part0 :: part1 :: _ => (Some (Date_getTime part0), Some part1)
       | _ => (Some (Date_getTime (default "" after)), None)
       end
  else (None, None).

Definition startIndex (all : list Entity) (afterDate : option (option Z))
    (afterIdVal : option string) : nat :=
  match afterDate, afterIdVal with
  | Some t, Some afterIdVal =>
      default (length all)
        (findIndex (λ e,
           let et := Date_getTime (Entity.updatedAt e) in
           number_gt et t || (number_eq et t && string_gt (Entity.id e) afterIdVal)) all)
  | Some t, None =>
      default (length all)
        (findIndex (λ e, number_gt (Date_getTime (Entity.updatedAt e)) t) all)
  | None, _ => O
  end.

(** [all.slice(start, start + size + 1)]; an end that is NaN is 0. *)
Definition slice_page (all : list Entity) (start : nat) (size : option Z) : list Entity :=
  match size with
  | Some n => take (Z.to_nat (n + 1)) (drop start all)
  | None => []
  end.

Definition handleGet (fs : FS) (storeName : string) (url : Query) : result Response :=
  let size := page_size (param_size url) in
  let '(afterDate, afterIdVal) := cursor (param_after url) (param_after_id url) in
  all ← getAllEntities fs storeName;
  let all := sort compareCursor all in
  let slice := slice_page all (startIndex all afterDate afterIdVal) size in
  let hasMore := match size with
                 | Some n => Z.ltb n (Z.of_nat (length slice))
                 | None => false
                 end in
  let data := if hasMore then take (Z.to_nat (default 0 size)) slice else slice in
  Ok {| status := 200; body := PageJson data hasMore |}.

(** ** Routing *)

(** A request after [parsePath]: [path] is [None] when the URL has not one
    or two segments. *)
Record Request := {
  method : string;
  path : option (string * option string);
  query : Query;
  json_body : option json
}.

Definition handleFetch (fs : FS) (req : Request) (now : string) : Response * FS :=
  if String.eqb (method req) "OPTIONS" then ({| status := 204; body := NoBody |}, fs)
  else
    match path req with
    | None => ({| status := 404; body := ErrorJson "Not found" |}, fs)
    | Some (storeName, id) =>
        match assertValidStoreName storeName with
        | Throw _ => ({| status := 400; body := ErrorJson "Invalid store name" |}, fs)
        | Ok _ =>
            let res :=
              match id with
              | None =>
                  if String.eqb (method req) "GET"
                  then (r ← handleGet fs storeName (query req); Ok (r, fs))
                  else if String.eqb (method req) "POST"
                  then handlePost fs storeName (json_body req) now
                  else Ok ({| status := 405; body := Text "Method Not Allowed" |}, fs)
              | Some id =>
                  if String.eqb (method req) "GET"
                  then (entity ← readEntity fs storeName id;
                        Ok (match entity with
                            | None => {| status := 404; body := NoBody |}
                            | Some entity => jsonResponse entity
                            end, fs))
                  else if String.eqb (method req) "PUT"
                  then handlePut fs storeName id (json_body req) now
                  else if String.eqb (method req) "DELETE"
                  then handleDelete fs storeName id now
                  else Ok ({| status := 405; body := Text "Method Not Allowed" |}, fs)
              end in
            match res with
            | Ok r => r
            | Throw _ => ({| status := 500; body := Text "Internal Server Error" |}, fs)
            end
        end
    end.

End Feed.

(** ** A concrete runtime

    Used to run the handlers on concrete requests.  Each component is the
    runtime's function on the inputs named below and NaN (or code-unit
    order) elsewhere; the general theorems hold for every [Runtime]. *)

(** The value of a string made of decimal digits only. *)
Definition digits_only (s : string) : option Z :=
  if negb (is_empty s) && string_forallb is_digit s then read_digits s None else None.

Definition is_leap (y : Z) : bool :=
  (Z.eqb (y mod 4) 0 && negb (Z.eqb (y mod 100) 0)) || Z.eqb (y mod 400) 0.

Definition days_in_month (y m : Z) : Z :=
  if Z.eqb m 2 then (if is_leap y then 29 else 28)
  else if Z.eqb m 4 || Z.eqb m 6 || Z.eqb m 9 || Z.eqb m 11 then 30
  else 31.

(** Days from 1970-01-01 to the given day of the proleptic Gregorian
    calendar. *)
Definition days_from_civil (y m d : Z) : Z :=
  let y' := if Z.leb m 2 then y - 1 else y in
  let era := y' / 400 in
  let yoe := y' - era * 400 in
  let doy := (153 * (if Z.ltb 2 m then m - 3 else m + 9) + 2) / 5 + d - 1 in
  let doe := yoe * 365 + yoe / 4 - yoe / 100 + doy in
  era * 146097 + doe - 719468.

(** The time value of a string in the format of [toISOString],
    [YYYY-MM-DDTHH:mm:ss.sssZ]. *)
Definition iso_getTime (s : string) : option Z :=
  if negb (Nat.eqb (String.length s) 24) then None
  else if negb (String.eqb (substring 4 1 s) "-" && String.eqb (substring 7 1 s) "-"
                && String.eqb (substring 10 1 s) "T" && String.eqb (substring 13 1 s) ":"
                && String.eqb (substring 16 1 s) ":" && String.eqb (substring 19 1 s) "."
                && String.eqb (substring 23 1 s) "Z") then None
  else
    y ← digits_only (substring 0 4 s);
    m ← digits_only (substring 5 2 s);
    d ← digits_only (substring 8 2 s);
    hh ← digits_only (substring 11 2 s);
    mm ← digits_only (substring 14 2 s);
    ss ← digits_only (substring 17 2 s);
    ms ← digits_only (substring 20 3 s);
    if Z.leb 1 m && Z.leb m 12 && Z.leb 1 d && Z.leb d (days_in_month y m)
       && Z.leb hh 23 && Z.leb mm 59 && Z.leb ss 59
    then Some ((((days_from_civil y m d * 24 + hh) * 60 + mm) * 60 + ss) * 1000 + ms)
    else None.

(** Collation of letters and digits as the root locale has it: digits before
    letters, letters in alphabetical order whatever their case, and at equal
    letters the lower case first.  Other code units keep their code. *)
Definition primary_weight (c : ascii) : Z :=
  let n := Z.of_nat (nat_of_ascii c) in
  if in_range "a" "z" c then 1000 + (n - 97)
  else if in_range "A" "Z" c then 1000 + (n - 65)
  else if is_digit c then 500 + (n - 48)
  else n.

Definition tertiary_weight (c : ascii) : Z :=
  if in_range "A" "Z" c then 1 else 0.

Fixpoint compare_by (w : ascii → Z) (a b : string) : Z :=
  match a, b with
  | EmptyString, EmptyString => 0
  | EmptyString, String _ _ => -1
  | String _ _, EmptyString => 1
  | String x a', String y b' =>
      if Z.ltb (w x) (w y) then -1
      else if Z.ltb (w y) (w x) then 1
      else compare_by w a' b'
  end.

Definition alnum_localeCompare (a b : string) : Z :=
  let p := compare_by primary_weight a b in
  if Z.eqb p 0 then compare_by tertiary_weight a b else p.

Fixpoint trim_right (s : string) : string :=
  match s with
  | EmptyString => EmptyString
  | String c s' =>
      match trim_right s' with
      | EmptyString => if is_space c then EmptyString else String c EmptyString
      | t => String c t
      end
  end.

(** The numeric value of a string that is, between white space, empty or a
    signed sequence of decimal digits. *)
Definition decimal_StringToNumber (s : string) : option Z :=
  match trim_right (skip_spaces s) with
  | EmptyString => Some 0
  | String "-" s' => Z.opp <$> digits_only s'
  | String "+" s' => digits_only s'
  | s' => digits_only s'
  end.

Definition sample_runtime : Runtime :=
  {| Date_getTime := iso_getTime;
     localeCompare := alnum_localeCompare;
     StringToNumber := decimal_StringToNumber |}.

(** ** The client's paging loop

    The protocol a client follows to read the whole feed: ask for a page,
    and while the answer says [hasMore], ask again with the cursor
    [(updatedAt, id)] of the last record received. *)

Section Paging.
Context `{Runtime}.

Fixpoint pull (fuel : nat) (fs : FS) (storeName : string) (size after afterId : option string)
    : result (list Entity) :=
  match fuel with
  | O => Ok []
  | S fuel' =>
      r ← handleGet fs storeName
            {| param_size := size; param_after := after; param_after_id := afterId |};
      match body r with
      | PageJson data true =>
          match last data with
          | Some e =>
              rest ← pull fuel' fs storeName size
                       (Some (Entity.updatedAt e)) (Some (Entity.id e));
              Ok (app data rest)
          | None => Ok data
          end
      | PageJson data false => Ok data
      | _ => Ok []
      end
  end.

End Paging.

(** ** Stores and requests used in examples *)

Definition stamp0 : string := "2024-01-01T00:00:00.000Z".
Definition stamp1 : string := "2024-01-01T00:00:00.001Z".

Definition record_a : Entity :=
  {| Entity.id := "a"; Entity.version := 1; Entity.updatedAt := stamp0;
     Entity.payload := [("text", JStr "x")] |}.

Definition record_B : Entity :=
  {| Entity.id := "B"; Entity.version := 1; Entity.updatedAt := stamp0;
     Entity.payload := [] |}.

Definition record_b : Entity :=
  {| Entity.id := "b"; Entity.version := 1; Entity.updatedAt := stamp0;
     Entity.payload := [] |}.

Definition record_comma : Entity :=
  {| Entity.id := "a,b"; Entity.version := 1; Entity.updatedAt := stamp0;
     Entity.payload := [] |}.

Definition tombstone_a : Entity :=
  {| Entity.id := "a"; Entity.version := -1; Entity.updatedAt := stamp0;
     Entity.payload := [] |}.


Definition store_of (fs : FS) (r : result (Response * FS)) : FS :=
  match r with
  | Ok (_, fs') => fs'
  | Throw _ => fs
  end.

(** The store after a create of ["a"]; after a further create, at the same
    time, of ["B"], or of ["b"]; after a delete of ["a"]; the store after a
    create of ["a,b"]; and a store with a file that does not parse. *)
Definition store_a : FS :=
  store_of ∅ (handlePost ∅ "memos"
                (Some (JObj [("id", JStr "a"); ("text", JStr "x")])) stamp0).
Definition store_aB : FS :=
  store_of store_a (handlePost store_a "memos" (Some (JObj [("id", JStr "B")])) stamp0).
Definition store_ab : FS :=
  store_of store_a (handlePost store_a "memos" (Some (JObj [("id", JStr "b")])) stamp0).
Definition store_tombstone : FS :=
  store_of store_a (handleDelete store_a "memos" "a" stamp0).
Definition store_comma : FS :=
  store_of ∅ (handlePost ∅ "memos" (Some (JObj [("id", JStr "a,b")])) stamp0).

Definition no_query : Query :=
  {| param_size := None; param_after := None; param_after_id := None |}.

Definition point_request (method storeName id : string) (json_body : option json) : Request :=
  {| method := method; path := Some (storeName, Some id); query := no_query;
     json_body := json_body |}.

Definition store_request (method storeName : string) (query : Query)
    (json_body : option json) : Request :=
  {| method := method; path := Some (storeName, None); query := query;
     json_body := json_body |}.

(** ** Predicates of the statements *)

(** What a write to the file of [id] leaves behind: the new entity under
    [id], every other file as it was. *)
Definition written (fs fs' : FS) (storeName id : string) (entity : Entity) : Prop :=
  readEntity fs' storeName id = Ok (Some entity)
  ∧ ∀ p, p ≠ (storeName, safeId id) → fs' !! p = fs !! p.

(** The shape of every store the handlers have written: a file stem is a
    non-empty id without slashes, and a parsed file holds a record whose id
    strips to the stem. *)
Definition file_wf (stem : string) (c : FileContent) : bool :=
  negb (is_empty stem) && String.eqb (safeId stem) stem
  && match c with
     | Parsed e => String.eqb (safeId (Entity.id e)) stem
     | Unparseable _ => true
     end.

Definition store_wf (fs : FS) : bool :=
  forallb (λ kv : (string * string) * FileContent, file_wf kv.1.2 kv.2) (map_to_list fs).

(** The record that the file [kv] contributes to the feed of [storeName]. *)
Definition parsed_in (storeName : string) (kv : (string * string) * FileContent)
    : option Entity :=
  if String.eqb kv.1.1 storeName
  then match kv.2 with
       | Parsed e => Some e
       | Unparseable _ => None
       end
  else None.

(** The order of the feed: by time, and at equal times by id, ids compared
    on their code units as the cursor test of [handleGet] compares them. *)
Definition feed_lt `{Runtime} (a b : Entity) : Prop :=
  ∃ ta tb,
    Date_getTime (Entity.updatedAt a) = Some ta
    ∧ Date_getTime (Entity.updatedAt b) = Some tb
    ∧ (ta < tb ∨ (ta = tb ∧ String.compare (Entity.id a) (Entity.id b) = Lt)).

(** The collation agrees with the order of the code units on the ids of
    [all]. *)
Definition collation_agrees `{Runtime} (all : list Entity) : Prop :=
  ∀ a b, a ∈ all → b ∈ all →
    (localeCompare (Entity.id a) (Entity.id b) < 0
     ↔ String.compare (Entity.id a) (Entity.id b) = Lt).

(** A string without the character [c]. *)
Definition lacks (c : ascii) (s : string) : Prop :=
  string_forallb (λ x, negb (Ascii.eqb x c)) s = true.

(** ** Requests in sequence *)

Section Serve.
Context `{Runtime}.

(** The server answers the requests one after the other, no two at once,
    each at its own time, [handleFetch] passing the store on. *)
Fixpoint serve (fs : FS) (reqs : list (Request * string)) : list Response * FS :=
  match reqs with
  | [] => ([], fs)
  | (req, now) :: rest =>
      let '(response, fs') := handleFetch fs req now in
      let '(responses, fs'') := serve fs' rest in
      (response :: responses, fs'')
  end.

End Serve.

(** ** The path of a request *)

(** [s.split(sep)] for a separator of one character. *)
Fixpoint split_on (sep : ascii) (s : string) : list string :=
  match s with
  | EmptyString => [""]
  | String c s' =>
      if Ascii.eqb c sep
      then "" :: split_on sep s'
      else match split_on sep s' with
           | part :: parts => String c part :: parts
           | [] => [String c ""]
           end
  end.

(** [parsePath], from the pathname that [new URL(url, ...)] gives:
    [pathname.split("/").filter(Boolean)], one or two segments. *)
Definition parsePath (pathname : string) : option (string * option string) :=
  match List.filter (λ segment, negb (is_empty segment)) (split_on "/" pathname) with
  | [storeName] => Some (storeName, None)
  | [storeName; id] => Some (storeName, Some id)
  | _ => None
  end.

(** ** The order of the times *)

(** Not later: the order of the times alone, whatever the ids. *)
Definition not_later `{Runtime} (a b : Entity) : Prop :=
  ∃ ta tb,
    Date_getTime (Entity.updatedAt a) = Some ta
    ∧ Date_getTime (Entity.updatedAt b) = Some tb ∧ (ta ≤ tb)%Z.

(** [e] is later than the time [t]. *)
Definition later_than `{Runtime} (t : Z) (e : Entity) : Prop :=
  ∃ te, Date_getTime (Entity.updatedAt e) = Some te ∧ (t < te)%Z.

(** * Properties *)

(** ** Storage lemmas *)

Lemma entityPath_inv storeName id p :
  entityPath storeName id = Ok p →
  assertValidStoreName storeName = Ok () ∧ is_empty (safeId id) = false
  ∧ p = (storeName, safeId id).
Proof.
  unfold entityPath. destruct (assertValidStoreName storeName) as [[]|] eqn:Hs; cbn; [|done].
  destruct (is_empty (safeId id)); [done|]. by intros [= <-].
Qed.

Lemma entityPath_ok storeName id :
  assertValidStoreName storeName = Ok () → is_empty (safeId id) = false →
  entityPath storeName id = Ok (storeName, safeId id).
Proof. intros Hs Hi. unfold entityPath. rewrite Hs. cbn. by rewrite Hi. Qed.

Lemma readEntity_inv fs storeName id r :
  readEntity fs storeName id = Ok r →
  entityPath storeName id = Ok (storeName, safeId id)
  ∧ match fs !! (storeName, safeId id) with
    | Some (Parsed e) => r = Some e
    | _ => r = None
    end.
Proof.
  unfold readEntity. destruct (entityPath storeName id) as [p|] eqn:Hp; cbn; [|done].
  destruct (entityPath_inv _ _ _ Hp) as (_ & _ & ->). intros Hr. split; [done|].
  destruct (fs !! (storeName, safeId id)) as [[]|]; congruence.
Qed.

Lemma readEntity_Some fs storeName id e :
  readEntity fs storeName id = Ok (Some e) →
  entityPath storeName id = Ok (storeName, safeId id)
  ∧ fs !! (storeName, safeId id) = Some (Parsed e).
Proof.
  intros [Hp Hl]%readEntity_inv. split; [done|].
  destruct (fs !! (storeName, safeId id)) as [[]|]; congruence.
Qed.

Lemma readEntity_lookup fs storeName id :
  entityPath storeName id = Ok (storeName, safeId id) →
  readEntity fs storeName id =
    Ok (match fs !! (storeName, safeId id) with
        | Some (Parsed e) => Some e
        | _ => None
        end).
Proof.
  intros Hp. unfold readEntity. rewrite Hp. cbn.
  by destruct (fs !! (storeName, safeId id)) as [[]|].
Qed.

Lemma entityPath_same storeName id id' :
  safeId id = safeId id' → entityPath storeName id = entityPath storeName id'.
Proof. intros Heq. unfold entityPath. by rewrite Heq. Qed.

Lemma writeEntity_ok fs storeName id entity :
  entityPath storeName id = Ok (storeName, safeId id) →
  safeId (Entity.id entity) = safeId id →
  writeEntity fs storeName entity = Ok (<[(storeName, safeId id) := Parsed entity]> fs).
Proof.
  intros Hp Heq. unfold writeEntity, ensureStoreDir.
  destruct (entityPath_inv _ _ _ Hp) as (Hs & _ & _). rewrite Hs. cbn.
  rewrite (entityPath_same _ _ id Heq), Hp. done.
Qed.

Lemma written_insert fs storeName id entity :
  entityPath storeName id = Ok (storeName, safeId id) →
  written fs (<[(storeName, safeId id) := Parsed entity]> fs) storeName id entity.
Proof.
  intros Hp. split.
  - rewrite (readEntity_lookup _ _ _ Hp). by rewrite lookup_insert_eq.
  - intros p Hne. by rewrite lookup_insert_ne.
Qed.

(** ** C1, C5, C9: update *)

Section Update.
Context `{Runtime}.





End Update.


Section Rejections.
Context `{Runtime}.



End Rejections.





(** ** C3, C4: create and delete *)


Lemma handlePost_with_id fs storeName body id now :
  get_prop body "id" = Ok (Some id) → id ≠ JNull →
  handlePost fs storeName (Some body) now =
    existing ← readEntity fs storeName (ToString id);
    match existing with
    | Some _ => Ok ({| status := 409; body := Text "Conflict" |}, fs)
    | None =>
        fs' ← writeEntity fs storeName
                {| Entity.id := ToString id; Entity.version := 1;
                   Entity.updatedAt := now; Entity.payload := spread body |};
        Ok ({| status := 204; body := NoBody |}, fs')
    end.
Proof. intros Hid Hnull. unfold handlePost. rewrite Hid. cbn. by destruct id. Qed.



(** C4.  A delete of an existing record returns 204 and leaves in its place
    exactly its id, version -1 and the server's time, with no payload; a
    delete of a missing id returns 404; a delete of a tombstone succeeds like
    any other, and what it stores is the tombstone with a new [updatedAt]. *)
Theorem delete_semantics fs storeName id now :
  (readEntity fs storeName id = Ok None →
     handleDelete fs storeName id now = Ok ({| status := 404; body := NoBody |}, fs))
  ∧ ∀ existing,
      readEntity fs storeName id = Ok (Some existing) →
      safeId (Entity.id existing) = safeId id →
      ∃ fs' tombstone,
        handleDelete fs storeName id now = Ok ({| status := 204; body := NoBody |}, fs')
        ∧ written fs fs' storeName id tombstone
        ∧ tombstone = {| Entity.id := Entity.id existing; Entity.version := -1;
                         Entity.updatedAt := now; Entity.payload := [] |}
        ∧ (Entity.version existing = -1 → Entity.payload existing = [] →
           tombstone = {| Entity.id := Entity.id existing;
                          Entity.version := Entity.version existing;
                          Entity.updatedAt := now;
                          Entity.payload := Entity.payload existing |}).
Proof.
  split.
  - intros Hr. unfold handleDelete. by rewrite Hr.
  - intros existing Hr Hid. unfold handleDelete. rewrite Hr. cbn.
    destruct (readEntity_Some _ _ _ _ Hr) as [Hp _].
    erewrite writeEntity_ok by (cbn; eauto). cbn.
    eexists _, _. split; [done|]. split; [by apply written_insert|].
    split; [done|]. by intros -> ->.
Qed.



Lemma delete_semantics_witness :
  (readEntity ∅ "memos" "a" = Ok None
   ∧ handleDelete ∅ "memos" "a" stamp1 = Ok ({| status := 404; body := NoBody |}, ∅))
  ∧ readEntity store_a "memos" "a" = Ok (Some record_a)
  ∧ safeId (Entity.id record_a) = safeId "a"
  ∧ (∃ fs',
       handleDelete store_a "memos" "a" stamp1 = Ok ({| status := 204; body := NoBody |}, fs')
       ∧ written store_a fs' "memos" "a"
           {| Entity.id := "a"; Entity.version := -1; Entity.updatedAt := stamp1;
              Entity.payload := [] |})
  ∧ readEntity store_tombstone "memos" "a" = Ok (Some tombstone_a)
  ∧ ∃ fs',
      handleDelete store_tombstone "memos" "a" stamp1
      = Ok ({| status := 204; body := NoBody |}, fs')
      ∧ written store_tombstone fs' "memos" "a"
          {| Entity.id := "a"; Entity.version := -1; Entity.updatedAt := stamp1;
             Entity.payload := [] |}.
Proof.
  assert (Hnone : readEntity ∅ "memos" "a" = Ok None) by (vm_compute; reflexivity).
  assert (Hr : readEntity store_a "memos" "a" = Ok (Some record_a))
    by (vm_compute; reflexivity).
  assert (Ht : readEntity store_tombstone "memos" "a" = Ok (Some tombstone_a))
    by (vm_compute; reflexivity).
  split; [|split; [exact Hr|split; [reflexivity|split; [|split; [exact Ht|]]]]].
  - split; [exact Hnone|].
    exact (proj1 (delete_semantics ∅ "memos" "a" stamp1) Hnone).
  - destruct (proj2 (delete_semantics store_a "memos" "a" stamp1) record_a Hr eq_refl)
      as (fs' & t & Hd & Hw & -> & _).
    exists fs'. split; [exact Hd | exact Hw].
  - destruct (proj2 (delete_semantics store_tombstone "memos" "a" stamp1)
                tombstone_a Ht eq_refl) as (fs' & t & Hd & Hw & -> & _).
    exists fs'. split; [exact Hd | exact Hw].
Defined.

(** ** The store invariant and the records of a store *)

Lemma store_wf_spec (fs : FS) :
  store_wf fs = true ↔
  ∀ storeName stem c, fs !! (storeName, stem) = Some c → file_wf stem c = true.
Proof.
  unfold store_wf. rewrite forallb_forall. split.
  - intros Hall storeName stem c Hl.
    apply (Hall ((storeName, stem), c)), list_elem_of_In, elem_of_map_to_list. done.
  - intros Hall [[storeName stem] c] Hin%list_elem_of_In%elem_of_map_to_list.
    by apply (Hall storeName).
Qed.

Lemma file_wf_inv stem c :
  file_wf stem c = true →
  is_empty stem = false ∧ safeId stem = stem
  ∧ ∀ e, c = Parsed e → safeId (Entity.id e) = stem.
Proof.
  unfold file_wf. rewrite !andb_true_iff, negb_true_iff, String.eqb_eq.
  intros [[Hne Hsafe] Hc]. split; [done|]. split; [done|].
  intros e ->. by apply String.eqb_eq.
Qed.

Lemma store_wf_empty : store_wf ∅ = true.
Proof. apply store_wf_spec. intros storeName stem c. by rewrite lookup_empty. Qed.

Lemma store_wf_insert (fs : FS) storeName stem c :
  store_wf fs = true → file_wf stem c = true →
  store_wf (<[(storeName, stem) := c]> fs) = true.
Proof.
  rewrite !store_wf_spec. intros Hfs Hc storeName' stem' c'.
  destruct (decide ((storeName, stem) = (storeName', stem'))) as [[= <- <-]|Hne].
  - rewrite lookup_insert_eq. by intros [= <-].
  - rewrite lookup_insert_ne by done. apply Hfs.
Qed.


Lemma safeId_idem id : safeId (safeId id) = safeId id.
Proof.
  unfold safeId. induction id as [|c id IH]; [done|]. cbn.
  destruct (negb _) eqn:Hc; cbn; [|done]. by rewrite Hc, IH.
Qed.

Lemma file_wf_written id entity :
  is_empty (safeId id) = false → safeId (Entity.id entity) = safeId id →
  file_wf (safeId id) (Parsed entity) = true.
Proof.
  intros Hne Hid. unfold file_wf. rewrite Hne, safeId_idem, Hid. cbn.
  by rewrite !String.eqb_refl.
Qed.

(** The three writing handlers keep the invariant. *)
Lemma writeEntity_wf fs fs' storeName entity :
  store_wf fs = true → writeEntity fs storeName entity = Ok fs' → store_wf fs' = true.
Proof.
  intros Hwf. unfold writeEntity, ensureStoreDir.
  destruct (assertValidStoreName storeName) as [[]|]; cbn; [|done].
  destruct (entityPath storeName (Entity.id entity)) as [p|] eqn:Hp; cbn; [|done].
  destruct (entityPath_inv _ _ _ Hp) as (_ & Hne & ->). intros [= <-].
  apply store_wf_insert; [done|]. by apply file_wf_written.
Qed.

Lemma handlePost_wf fs fs' storeName req now r :
  store_wf fs = true → handlePost fs storeName req now = Ok (r, fs') → store_wf fs' = true.
Proof.
  intros Hwf. unfold handlePost. destruct req as [body|]; [|by intros [= _ <-]].
  destruct (get_prop body "id") as [id|]; cbn; [|done].
  assert (∀ v, (existing ← readEntity fs storeName (ToString v);
                match existing with
                | Some _ => Ok ({| status := 409; body := Text "Conflict" |}, fs)
                | None =>
                    fs'0 ← writeEntity fs storeName
                             {| Entity.id := ToString v; Entity.version := 1;
                                Entity.updatedAt := now; Entity.payload := spread body |};
                    Ok ({| status := 204; body := NoBody |}, fs'0)
                end) = Ok (r, fs') → store_wf fs' = true) as Hmain.
  { intros v. destruct (readEntity fs storeName (ToString v)) as [[e|]|]; cbn; [by intros [= _ <-]| |done].
    destruct (writeEntity _ _ _) as [fs0|] eqn:Hw; cbn; [|done].
    intros [= _ <-]. by eapply writeEntity_wf. }
  destruct id as [[]|]; first [by intros [= _ <-] | apply Hmain].
Qed.

Lemma handleDelete_wf fs fs' storeName id now r :
  store_wf fs = true → handleDelete fs storeName id now = Ok (r, fs') → store_wf fs' = true.
Proof.
  intros Hwf. unfold handleDelete.
  destruct (readEntity fs storeName id) as [[e|]|]; cbn; [|by intros [= _ <-]|done].
  destruct (writeEntity _ _ _) as [fs0|] eqn:Hw; cbn; [|done].
  intros [= _ <-]. by eapply writeEntity_wf.
Qed.

Lemma handlePut_wf `{Runtime} fs fs' storeName id req now r :
  store_wf fs = true → handlePut fs storeName id req now = Ok (r, fs') → store_wf fs' = true.
Proof.
  intros Hwf. unfold handlePut.
  destruct (readEntity fs storeName id) as [[e|]|]; cbn; [|by intros [= _ <-]|done].
  destruct req as [body|]; [|by intros [= _ <-]].
  destruct (get_prop body "version") as [v|]; cbn; [|done].
  destruct (number_ne _ _); [by intros [= _ <-]|].
  destruct (writeEntity _ _ _) as [fs0|] eqn:Hw; cbn; [|done].
  intros [= _ <-]. by eapply writeEntity_wf.
Qed.

(** Every request keeps the invariant, and under it a record carries the id
    it is read under, up to the stripping of slashes. *)
Lemma handleFetch_wf `{Runtime} fs req now :
  store_wf fs = true → store_wf (handleFetch fs req now).2 = true.
Proof.
  intros Hwf. unfold handleFetch.
  destruct (String.eqb (method req) "OPTIONS"); [done|].
  destruct (path req) as [[storeName id]|]; [|done].
  destruct (assertValidStoreName storeName); [|done].
  destruct id as [id|].
  - destruct (String.eqb (method req) "GET").
    { by destruct (readEntity fs storeName id). }
    destruct (String.eqb (method req) "PUT").
    { destruct (handlePut fs storeName id (json_body req) now) as [[r fs']|] eqn:Hput; [|done].
      by eapply handlePut_wf. }
    destruct (String.eqb (method req) "DELETE"); [|done].
    destruct (handleDelete fs storeName id now) as [[r fs']|] eqn:Hdel; [|done].
    by eapply handleDelete_wf.
  - destruct (String.eqb (method req) "GET").
    { by destruct (handleGet fs storeName (query req)). }
    destruct (String.eqb (method req) "POST"); [|done].
    destruct (handlePost fs storeName (json_body req) now) as [[r fs']|] eqn:Hpost; [|done].
    by eapply handlePost_wf.
Qed.


(** The records that a listing reads are the parsed contents of the files
    of the store. *)
Lemma getAllEntities_loop_spec (fs : FS) storeName (l : list ((string * string) * FileContent)) :
  assertValidStoreName storeName = Ok () →
  (∀ kv, kv ∈ l → fs !! kv.1 = Some kv.2 ∧ file_wf kv.1.2 kv.2 = true) →
  getAllEntities_loop fs storeName
    (omap (λ kv : (string * string) * FileContent,
             if String.eqb kv.1.1 storeName then Some kv.1.2 else None) l)
  = Ok (omap (parsed_in storeName) l).
Proof.
  intros Hs. induction l as [|[[s stem] c] l IH]; intros Hl; [done|].
  assert (Hrest : ∀ kv, kv ∈ l → fs !! kv.1 = Some kv.2 ∧ file_wf kv.1.2 kv.2 = true).
  { intros kv Hin. apply Hl. by right. }
  specialize (IH Hrest).
  destruct (Hl ((s, stem), c)) as [Hlook Hwf]; [by left|]. cbn in Hlook, Hwf.
  destruct (file_wf_inv _ _ Hwf) as (Hne & Hsafe & _).
  cbn [omap list_omap]. unfold parsed_in at 1. cbn [fst snd].
  destruct (String.eqb_spec s storeName) as [->|Hneq]; [|exact IH].
  cbn [getAllEntities_loop].
  rewrite readEntity_lookup by (apply entityPath_ok; by rewrite ?Hsafe).
  rewrite Hsafe, Hlook. cbn. rewrite IH. cbn. by destruct c.
Qed.

Lemma getAllEntities_spec (fs : FS) storeName :
  store_wf fs = true → assertValidStoreName storeName = Ok () →
  getAllEntities fs storeName = Ok (omap (parsed_in storeName) (map_to_list fs)).
Proof.
  intros Hwf Hs. unfold getAllEntities, listEntityIds. rewrite Hs. cbn.
  apply getAllEntities_loop_spec; [done|].
  intros [[s stem] c] Hin%elem_of_map_to_list. split; [done|].
  cbn. by eapply store_wf_spec.
Qed.

(** ** Pages *)

Lemma insert_sorted_perm {A} (cmp : A → A → option Z) x l :
  insert_sorted cmp x l ≡ₚ x :: l.
Proof.
  induction l as [|y l IH]; [done|]. cbn.
  destruct (precedes cmp y x); [|done].
  rewrite IH. apply Permutation_swap.
Qed.

Lemma sort_perm {A} (cmp : A → A → option Z) l : sort cmp l ≡ₚ l.
Proof.
  induction l as [|x l IH]; [done|]. cbn.
  rewrite insert_sorted_perm. by rewrite IH.
Qed.

Lemma page_size_range size n : page_size size = Some n → (1 ≤ n ≤ 1000)%Z.
Proof.
  unfold page_size. destruct (parseInt (default "100" size)) as [m|]; cbn; [|done].
  intros [= <-]. lia.
Qed.

Lemma page_size_absent : page_size None = Some 100.
Proof. reflexivity. Qed.

Section Pages.
Context `{Runtime}.


End Pages.

(** ** C8: unparseable files *)


Section Unparseable.
Context `{Runtime}.


End Unparseable.


(** ** C10: ids are addressed with their slashes stripped *)

Lemma readEntity_same fs storeName id id' :
  safeId id = safeId id' → readEntity fs storeName id = readEntity fs storeName id'.
Proof. intros Heq. unfold readEntity. by rewrite (entityPath_same _ _ _ Heq). Qed.


Section Slashes.
Context `{Runtime}.


End Slashes.


(** ** C7: the joined cursor *)

Lemma lacks_cons c x s :
  lacks c (String x s) ↔ x ≠ c ∧ lacks c s.
Proof.
  unfold lacks. cbn. rewrite andb_true_iff, negb_true_iff. split.
  - intros [Hx Hs]. split; [|done]. intros ->. by rewrite Ascii.eqb_refl in Hx.
  - intros [Hx Hs]. split; [|done]. by apply Ascii.eqb_neq.
Qed.

Lemma split_comma_lacks s : lacks "," s → split_comma s = [s].
Proof.
  induction s as [|x s IH]; [done|]. intros [Hx Hs]%lacks_cons. cbn.
  apply Ascii.eqb_neq in Hx. rewrite Hx. by rewrite (IH Hs).
Qed.

Lemma split_comma_joined T I :
  lacks "," T → lacks "," I → split_comma (T +:+ "," +:+ I) = [T; I].
Proof.
  intros HT HI. induction T as [|x T IH].
  - change (split_comma (String "," I) = [""; I]). cbn.
    by rewrite (split_comma_lacks _ HI).
  - apply lacks_cons in HT as [Hx HT].
    change (split_comma (String x (T +:+ "," +:+ I)) = [String x T; I]).
    cbn [split_comma]. apply Ascii.eqb_neq in Hx. rewrite Hx. by rewrite (IH HT).
Qed.

Section JoinedCursor.
Context `{Runtime}.

(** C7 (amended).  For a timestamp [T] and an id [I] that are not empty and
    contain no comma, the request with [after] equal to [T], a comma and [I]
    and no [after_id] gets the same answer as the request with [after] equal
    to [T] and [after_id] equal to [I]. *)
Theorem joined_cursor fs storeName size T I :
  T ≠ "" → I ≠ "" → lacks "," T → lacks "," I →
  handleGet fs storeName
    {| param_size := size; param_after := Some (T +:+ "," +:+ I); param_after_id := None |}
  = handleGet fs storeName
      {| param_size := size; param_after := Some T; param_after_id := Some I |}.
Proof.
  intros HT HI HcT HcI. unfold handleGet. cbn [param_size param_after param_after_id].
  assert (Hcur : cursor (Some (T +:+ "," +:+ I)) None = cursor (Some T) (Some I)).
  { unfold cursor. cbn [truthy default from_option id].
    rewrite (split_comma_joined _ _ HcT HcI).
    destruct T as [|x T]; [done|]. destruct I as [|y I]; [done|]. done. }
  by rewrite Hcur.
Qed.

End JoinedCursor.

(** C7, as stated, fails: with the id ["a,b"] the joined form resumes after
    the id ["a"] and returns the record again that the separate form, rightly,
    leaves out. *)
Lemma joined_cursor_comma_id :
  handleGet (H := sample_runtime) store_comma "memos"
    {| param_size := None; param_after := Some (stamp0 +:+ "," +:+ "a,b");
       param_after_id := None |}
  = Ok {| status := 200; body := PageJson [record_comma] false |}
  ∧ handleGet (H := sample_runtime) store_comma "memos"
      {| param_size := None; param_after := Some stamp0; param_after_id := Some "a,b" |}
    = Ok {| status := 200; body := PageJson [] false |}.
Proof. split; vm_compute; reflexivity. Qed.

Lemma joined_cursor_witness :
  stamp0 ≠ "" ∧ "a" ≠ "" ∧ lacks "," stamp0 ∧ lacks "," "a"
  ∧ handleGet (H := sample_runtime) store_aB "memos"
      {| param_size := Some "1"; param_after := Some (stamp0 +:+ "," +:+ "a");
         param_after_id := None |}
    = handleGet (H := sample_runtime) store_aB "memos"
        {| param_size := Some "1"; param_after := Some stamp0; param_after_id := Some "a" |}.
Proof.
  assert (H0 : stamp0 ≠ "") by discriminate.
  assert (Ha : "a" ≠ "") by discriminate.
  assert (Hc0 : lacks "," stamp0) by reflexivity.
  assert (Hca : lacks "," "a") by reflexivity.
  split; [exact H0|]. split; [exact Ha|]. split; [exact Hc0|]. split; [exact Hca|].
  exact (joined_cursor (H := sample_runtime) store_aB "memos" (Some "1") stamp0 "a"
           H0 Ha Hc0 Hca).
Defined.

(** ** C6: the page size *)

Section PageSize.
Context `{Runtime}.

(** A [size] that [parseInt] does not read as a number makes every page
    empty: NaN passes through [Math.max] and [Math.min], the slice ends at
    index 0 and [0 > NaN] is false. *)
Lemma handleGet_nan_size fs storeName url all :
  getAllEntities fs storeName = Ok all →
  page_size (param_size url) = None →
  handleGet fs storeName url = Ok {| status := 200; body := PageJson [] false |}.
Proof.
  intros Hall Hsize. unfold handleGet.
  destruct (cursor (param_after url) (param_after_id url)) as [afterDate afterIdVal].
  rewrite Hall, Hsize. done.
Qed.

End PageSize.

(** C6 (the code departs from the claim).  For the request [?size=abc] the
    page size is NaN, not a number of the interval from 1 to 1000: the
    listing of a store that holds one record answers an empty page with
    [hasMore] false. *)
Theorem non_numeric_size_empty_page :
  page_size (Some "abc") = None
  ∧ getAllEntities store_a "memos" = Ok [record_a]
  ∧ handleGet (H := sample_runtime) store_a "memos"
      {| param_size := Some "abc"; param_after := None; param_after_id := None |}
    = Ok {| status := 200; body := PageJson [] false |}.
Proof. split; [|split]; vm_compute; reflexivity. Qed.

(** ** C2: paging through the feed *)

(** C2 (the code departs from the claim).  Two records created at the same
    time with the ids ["a"] and ["B"] are sorted by [localeCompare], which
    puts ["a"] first, while the cursor is compared with [>] on the code units,
    for which ["B"] is not after ["a"].  Paging with size 1 returns ["a"] with
    [hasMore] true, then, resumed at the cursor of ["a"], an empty page with
    [hasMore] false: the record ["B"] is never returned. *)
Theorem paging_skips_record :
  readEntity store_aB "memos" "a" = Ok (Some record_a)
  ∧ readEntity store_aB "memos" "B" = Ok (Some record_B)
  ∧ Entity.updatedAt record_a = Entity.updatedAt record_B
  ∧ handleGet (H := sample_runtime) store_aB "memos"
      {| param_size := Some "1"; param_after := None; param_after_id := None |}
    = Ok {| status := 200; body := PageJson [record_a] true |}
  ∧ handleGet (H := sample_runtime) store_aB "memos"
      {| param_size := Some "1"; param_after := Some (Entity.updatedAt record_a);
         param_after_id := Some (Entity.id record_a) |}
    = Ok {| status := 200; body := PageJson [] false |}
  ∧ ∀ fuel,
      pull (H := sample_runtime) (S (S fuel)) store_aB "memos" (Some "1") None None
      = Ok [record_a].
Proof.
  split; [vm_compute; reflexivity|]. split; [vm_compute; reflexivity|].
  split; [reflexivity|]. split; [vm_compute; reflexivity|].
  split; [vm_compute; reflexivity|]. intros fuel. vm_compute. reflexivity.
Qed.

(** ** The feed where the collation agrees with the code units *)

Lemma string_compare_refl a : String.compare a a = Eq.
Proof.
  induction a as [|x a IH]; [done|]. cbn.
  unfold Ascii.compare. by rewrite N.compare_refl.
Qed.

Lemma string_lt_irrefl a : String.compare a a ≠ Lt.
Proof. by rewrite string_compare_refl. Qed.

Lemma string_lt_gt a b : String.compare a b = Lt ↔ String.compare b a = Gt.
Proof. rewrite (String.compare_antisym b a). by destruct (String.compare a b). Qed.

Lemma string_lt_le a b : String.compare a b = Lt → String.le a b.
Proof. intros Hlt. unfold String.le, String.leb. by rewrite Hlt. Qed.

Lemma string_lt_trans a b c :
  String.compare a b = Lt → String.compare b c = Lt → String.compare a c = Lt.
Proof.
  intros Hab Hbc.
  assert (Hac : String.le a c).
  { transitivity b; by apply string_lt_le. }
  unfold String.le, String.leb in Hac.
  destruct (String.compare a c) eqn:Hc; [|done|done].
  apply String.compare_eq_iff in Hc as ->.
  apply string_lt_gt in Hab. congruence.
Qed.

Lemma string_lt_total a b :
  a ≠ b → String.compare a b = Lt ∨ String.compare b a = Lt.
Proof.
  intros Hne. destruct (String.compare a b) eqn:Hc.
  - by apply String.compare_eq_iff in Hc.
  - by left.
  - right. by apply string_lt_gt.
Qed.

Section GenericSort.
Context {A : Type} (cmp : A → A → option Z) (R : A → A → Prop).
Hypothesis R_trans : ∀ a b c, R a b → R b c → R a c.

Lemma insert_sorted_sorted x l :
  StronglySorted R l →
  (∀ y, y ∈ l → (precedes cmp y x = true ↔ R y x) ∧ (R y x ∨ R x y)) →
  StronglySorted R (insert_sorted cmp x l).
Proof.
  induction l as [|y l IH]; intros Hl Hx; cbn.
  - by repeat constructor.
  - apply StronglySorted_cons in Hl as [Hy Hl].
    destruct (Hx y) as [Hpre Htot]; [by left|].
    destruct (precedes cmp y x) eqn:Hp.
    + apply StronglySorted_cons. split.
      * rewrite insert_sorted_perm. constructor; [by apply Hpre|done].
      * apply IH; [done|]. intros z Hz. apply Hx. by right.
    + assert (Hxy : R x y).
      { destruct Htot as [Hyx|]; [|done]. apply Hpre in Hyx. congruence. }
      apply StronglySorted_cons. split.
      * constructor; [done|]. eapply Forall_impl; [exact Hy|]. intros z. by apply R_trans.
      * by apply StronglySorted_cons.
Qed.

Lemma sort_sorted l :
  NoDup l →
  (∀ x y, x ∈ l → y ∈ l → (precedes cmp x y = true ↔ R x y) ∧ (x ≠ y → R x y ∨ R y x)) →
  StronglySorted R (sort cmp l).
Proof.
  induction l as [|x l IH]; intros Hnd Hl; [constructor|].
  change (sort cmp (x :: l)) with (insert_sorted cmp x (sort cmp l)).
  apply NoDup_cons in Hnd as [Hx Hnd].
  apply insert_sorted_sorted.
  - apply IH; [done|]. intros a b Ha Hb. apply Hl; by right.
  - intros y Hy. rewrite sort_perm in Hy. split.
    + apply Hl; [by right|by left].
    + apply Hl; [by right|by left|]. intros ->. done.
Qed.

Hypothesis R_irrefl : ∀ a, ¬ R a a.

Lemma findIndex_after (p : A → bool) l i e :
  StronglySorted R l → l !! i = Some e →
  (∀ x, x ∈ l → p x = true ↔ R e x) →
  default (length l) (findIndex p l) = S i.
Proof.
  revert i. induction l as [|x l IH]; intros i Hl Hi Hp; [done|].
  apply StronglySorted_cons in Hl as [Hx Hl]. cbn [findIndex].
  destruct i as [|i]; cbn in Hi.
  - injection Hi as ->.
    assert (p e = false) as ->.
    { destruct (p e) eqn:He; [|done]. apply Hp in He; [|by left]. by apply R_irrefl in He. }
    destruct l as [|y l]; [done|]. cbn.
    assert (p y = true) as ->; [|done].
    apply Hp; [by right; left|]. by apply Forall_cons in Hx as [? _].
  - assert (p x = false) as ->.
    { destruct (p x) eqn:He; [|done]. apply Hp in He; [|by left].
      rewrite Forall_forall in Hx. assert (R x e) by (apply Hx; by eapply list_elem_of_lookup_2).
      destruct (R_irrefl e). by eapply R_trans. }
    specialize (IH i Hl Hi). rewrite <- IH.
    + by destruct (findIndex p l).
    + intros y Hy. apply Hp. by right.
Qed.

End GenericSort.

Lemma NoDup_fmap_eq {A B} (f : A → B) (l : list A) a b :
  NoDup (f <$> l) → a ∈ l → b ∈ l → f a = f b → a = b.
Proof.
  induction l as [|x l IH]; [by intros _ ?%elem_of_nil|].
  rewrite fmap_cons, NoDup_cons. intros [Hx Hnd] Ha Hb Heq.
  apply elem_of_cons in Ha as [->|Ha]; apply elem_of_cons in Hb as [->|Hb]; [done| | |by apply IH].
  - destruct Hx. rewrite Heq. by apply list_elem_of_fmap_2.
  - destruct Hx. rewrite <- Heq. by apply list_elem_of_fmap_2.
Qed.

Section FeedOrder.
Context `{Runtime}.

Lemma feed_lt_trans a b c : feed_lt a b → feed_lt b c → feed_lt a c.
Proof.
  intros (ta & tb & Ha & Hb & Hab) (tb' & tc & Hb' & Hc & Hbc).
  assert (tb' = tb) as -> by congruence.
  exists ta, tc. split; [done|]. split; [done|].
  destruct Hab as [Hab|[-> Hab]]; destruct Hbc as [Hbc|[<- Hbc]]; [left; lia|by left|by left|].
  right. split; [done|]. by eapply string_lt_trans.
Qed.

Lemma feed_lt_irrefl a : ¬ feed_lt a a.
Proof.
  intros (ta & tb & Ha & Hb & Hab). assert (tb = ta) as -> by congruence.
  destruct Hab as [?|[_ Hab]]; [lia|]. by apply string_lt_irrefl in Hab.
Qed.

Variable all : list Entity.
Hypothesis Hdates : ∀ e, e ∈ all → is_Some (Date_getTime (Entity.updatedAt e)).
Hypothesis Hids : NoDup (Entity.id <$> all).
Hypothesis Hcoll : collation_agrees all.

Lemma precedes_feed_lt a b :
  a ∈ all → b ∈ all → precedes compareCursor a b = true ↔ feed_lt a b.
Proof.
  intros Ha Hb. destruct (Hdates a Ha) as [ta Hta], (Hdates b Hb) as [tb Htb].
  unfold precedes, compareCursor, feed_lt. rewrite Hta, Htb.
  destruct (Z.eqb_spec ta tb) as [->|Hne].
  - rewrite Z.ltb_lt, (Hcoll a b Ha Hb). split.
    + intros Hlt. exists tb, tb. auto.
    + intros (? & ? & [= <-] & [= <-] & [?|[_ ?]]); [lia|done].
  - rewrite Z.ltb_lt. split.
    + intros Hlt. exists ta, tb. split; [done|]. split; [done|]. left. lia.
    + intros (? & ? & [= <-] & [= <-] & [?|[? _]]); lia.
Qed.

Lemma feed_lt_total a b : a ∈ all → b ∈ all → a ≠ b → feed_lt a b ∨ feed_lt b a.
Proof.
  intros Ha Hb Hne. destruct (Hdates a Ha) as [ta Hta], (Hdates b Hb) as [tb Htb].
  assert (Hid : Entity.id a ≠ Entity.id b).
  { intros Heq. apply Hne. by eapply (NoDup_fmap_eq Entity.id all). }
  destruct (Z.lt_trichotomy ta tb) as [Hlt|[->|Hgt]].
  - left. exists ta, tb. auto.
  - destruct (string_lt_total _ _ Hid); [left|right]; exists tb, tb; auto.
  - right. exists tb, ta. auto.
Qed.

Lemma feed_sorted : StronglySorted feed_lt (sort compareCursor all).
Proof.
  apply sort_sorted.
  - apply feed_lt_trans.
  - by eapply NoDup_fmap_1.
  - intros x y Hx Hy. split; [by apply precedes_feed_lt|by apply feed_lt_total].
Qed.

(** The cursor of a record of the feed resumes right after it. *)
Lemma startIndex_cursor i e :
  Date_getTime "" = None →
  sort compareCursor all !! i = Some e → Entity.id e ≠ "" →
  let c := cursor (Some (Entity.updatedAt e)) (Some (Entity.id e)) in
  startIndex (sort compareCursor all) c.1 c.2 = S i.
Proof.
  intros Hempty Hi Hid.
  assert (He : e ∈ all).
  { rewrite <- (sort_perm compareCursor). by eapply list_elem_of_lookup_2. }
  destruct (Hdates e He) as [t Ht].
  assert (Hu : Entity.updatedAt e ≠ "").
  { intros Heq. rewrite Heq in Ht. congruence. }
  assert (Htid : truthy (Some (Entity.id e)) = true) by by destruct (Entity.id e).
  assert (Htu : truthy (Some (Entity.updatedAt e)) = true)
    by by destruct (Entity.updatedAt e).
  unfold cursor. rewrite Htid, Htu.
  cbn [default from_option id fst snd startIndex]. rewrite Ht.
  apply (findIndex_after feed_lt feed_lt_trans feed_lt_irrefl _ _ _ e feed_sorted Hi).
  intros x Hx. rewrite (sort_perm compareCursor) in Hx.
  destruct (Hdates x Hx) as [tx Htx]. rewrite Htx.
  unfold feed_lt, number_gt, number_eq, string_gt. rewrite Ht, Htx.
  rewrite orb_true_iff, andb_true_iff, Z.ltb_lt, Z.eqb_eq. split.
  - intros [Hlt|[Heq Hgt]]; exists t, tx; (split; [done|]); (split; [done|]); [by left|].
    right. split; [done|]. apply string_lt_gt. by destruct (String.compare _ _).
  - intros (? & ? & [= <-] & [= <-] & [Hlt|[Heq Hlt]]); [by left|].
    right. split; [done|]. apply string_lt_gt in Hlt. by rewrite Hlt.
Qed.

End FeedOrder.

Section PagingThrough.
Context `{Runtime}.

(** With a numeric size [n], a page is the first [n] records from the start
    index on, and [hasMore] says whether there are more than [n]. *)
Lemma handleGet_sorted_page fs storeName url all n :
  getAllEntities fs storeName = Ok all →
  page_size (param_size url) = Some n →
  let c := cursor (param_after url) (param_after_id url) in
  let rest := drop (startIndex (sort compareCursor all) c.1 c.2) (sort compareCursor all) in
  handleGet fs storeName url =
    Ok {| status := 200;
          body := PageJson (take (Z.to_nat n) rest)
                    (bool_decide (Z.to_nat n < length rest)%nat) |}.
Proof.
  intros Hall Hn c rest. unfold handleGet.
  fold c. destruct c as [afterDate afterIdVal] eqn:Hc. rewrite Hall. cbn [mbind result_bind].
  cbn [fst snd] in rest. fold rest. rewrite Hn. cbn [slice_page default from_option id].
  fold rest. pose proof (page_size_range _ _ Hn) as Hrange.
  do 2 f_equal.
  destruct (Z.ltb_spec n (Z.of_nat (length (take (Z.to_nat (n + 1)) rest)))) as [Hlt|Hge].
  - rewrite length_take in Hlt. rewrite take_take.
    rewrite bool_decide_eq_true_2 by lia. f_equal. f_equal. lia.
  - rewrite length_take in Hge.
    rewrite bool_decide_eq_false_2 by lia.
    rewrite !take_ge by lia. done.
Qed.

Variable all : list Entity.
Hypothesis Hdates : ∀ e, e ∈ all → is_Some (Date_getTime (Entity.updatedAt e)).
Hypothesis Hids : NoDup (Entity.id <$> all).
Hypothesis Hnonempty : ∀ e, e ∈ all → Entity.id e ≠ "".
Hypothesis Hcoll : collation_agrees all.
Hypothesis Hempty : Date_getTime "" = None.

Lemma pull_from fs storeName size n fuel after afterId :
  getAllEntities fs storeName = Ok all →
  page_size size = Some n →
  let c := cursor after afterId in
  let k := startIndex (sort compareCursor all) c.1 c.2 in
  (length all - k < fuel)%nat →
  pull fuel fs storeName size after afterId = Ok (drop k (sort compareCursor all)).
Proof.
  intros Hall Hn. pose proof (page_size_range _ _ Hn) as Hrange.
  revert after afterId. induction fuel as [|fuel IH]; intros after afterId c k Hfuel; [lia|].
  cbn [pull].
  rewrite (handleGet_sorted_page fs storeName
             {| param_size := size; param_after := after; param_after_id := afterId |}
             all n Hall Hn).
  cbn [param_after param_after_id mbind result_bind body]. fold c k.
  set (sorted := sort compareCursor all) in *.
  assert (Hlen : length sorted = length all) by (unfold sorted; by rewrite sort_perm).
  destruct (decide (Z.to_nat n < length (drop k sorted))%nat) as [Hmore|Hlast].
  - rewrite bool_decide_eq_true_2 by done. rewrite length_drop in Hmore.
    assert (Hlast : last (take (Z.to_nat n) (drop k sorted))
                    = sorted !! (k + Z.to_nat n - 1)%nat).
    { rewrite last_lookup, length_take, length_drop.
      rewrite lookup_take_lt by lia. rewrite lookup_drop. f_equal. lia. }
    rewrite Hlast.
    destruct (lookup_lt_is_Some_2 sorted (k + Z.to_nat n - 1)%nat) as [e He]; [lia|].
    rewrite He.
    assert (Hin : e ∈ all).
    { rewrite <- (sort_perm compareCursor). by eapply list_elem_of_lookup_2. }
    pose proof (startIndex_cursor all Hdates Hids Hcoll _ e Hempty He (Hnonempty e Hin)) as Hk.
    cbn zeta in Hk. fold sorted in Hk.
    rewrite IH by (rewrite Hk; lia). rewrite Hk. cbn [mbind result_bind].
    f_equal. replace (S (k + Z.to_nat n - 1)) with (k + Z.to_nat n)%nat by lia.
    rewrite <- drop_drop. apply take_drop.
  - rewrite bool_decide_eq_false_2 by done. by rewrite take_ge by lia.
Qed.

End PagingThrough.

Lemma parsed_in_Some storeName kv e :
  parsed_in storeName kv = Some e → kv = ((storeName, kv.1.2), Parsed e).
Proof.
  destruct kv as [[s stem] c]. unfold parsed_in. cbn.
  destruct (String.eqb_spec s storeName) as [->|]; [|done].
  destruct c; [done|]. by intros [= ->].
Qed.

Lemma records_ids (l : list ((string * string) * FileContent)) storeName :
  NoDup l.*1 → (∀ kv, kv ∈ l → file_wf kv.1.2 kv.2 = true) →
  NoDup (Entity.id <$> omap (parsed_in storeName) l)
  ∧ ∀ e, e ∈ omap (parsed_in storeName) l → Entity.id e ≠ "".
Proof.
  intros Hnd Hwf. split.
  - induction l as [|kv l IH]; [constructor|].
    rewrite fmap_cons in Hnd. apply NoDup_cons in Hnd as [Hkv Hnd].
    assert (Hl : ∀ kv, kv ∈ l → file_wf kv.1.2 kv.2 = true).
    { intros kv' Hin. apply Hwf. by right. }
    specialize (IH Hnd Hl). cbn [omap list_omap].
    destruct (parsed_in storeName kv) as [e|] eqn:He; [|done].
    rewrite fmap_cons. apply NoDup_cons. split; [|done].
    intros (e' & Hid & (kv' & Hin' & He')%list_elem_of_omap)%list_elem_of_fmap.
    apply Hkv. apply list_elem_of_fmap. exists kv'. split; [|done].
    apply parsed_in_Some in He, He'.
    pose proof (Hwf kv ltac:(by left)) as Hw. pose proof (Hl kv' Hin') as Hw'.
    rewrite He in Hw |- *. rewrite He' in Hw' |- *. cbn in Hw, Hw' |- *.
    apply file_wf_inv in Hw as (_ & _ & Hw). apply file_wf_inv in Hw' as (_ & _ & Hw').
    by rewrite <- (Hw e eq_refl), <- (Hw' e' eq_refl), Hid.
  - intros e (kv & Hin & He)%list_elem_of_omap Hid.
    pose proof (Hwf kv Hin) as Hw. apply parsed_in_Some in He.
    rewrite He in Hw. cbn in Hw. apply file_wf_inv in Hw as (Hne & _ & Hw).
    rewrite <- (Hw e eq_refl), Hid in Hne. done.
Qed.

Section Exhaustive.
Context `{Runtime}.

(** X20.  Where the collation orders the ids of a store as their code units
    do, and the stored times parse, paging through the store, with any numeric
    size, returns every record exactly once, in the order of the feed. *)
Theorem paging_exhaustive fs storeName size n fuel :
  store_wf fs = true → assertValidStoreName storeName = Ok () →
  page_size size = Some n → Date_getTime "" = None →
  let all := omap (parsed_in storeName) (map_to_list fs) in
  (∀ e, e ∈ all → is_Some (Date_getTime (Entity.updatedAt e))) →
  collation_agrees all →
  (length all < fuel)%nat →
  ∃ feed,
    pull fuel fs storeName size None None = Ok feed
    ∧ feed ≡ₚ all ∧ NoDup feed ∧ StronglySorted feed_lt feed.
Proof.
  intros Hwf Hs Hn Hempty all Hdates Hcoll Hfuel.
  destruct (records_ids (map_to_list fs) storeName) as [Hids Hne].
  { apply NoDup_fst_map_to_list. }
  { intros [[s stem] c] Hin%elem_of_map_to_list. by eapply store_wf_spec. }
  exists (sort compareCursor all). split; [|split; [|split]].
  - rewrite (pull_from all Hdates Hids Hne Hcoll Hempty fs storeName size n fuel None None
               (getAllEntities_spec _ _ Hwf Hs) Hn); [done|]. cbn. lia.
  - apply sort_perm.
  - rewrite sort_perm. by eapply NoDup_fmap_1.
  - by apply feed_sorted.
Qed.

End Exhaustive.

(** * Further properties of the handlers *)

(** ** Paths *)

Lemma STORE_NAME_char_plain c :
  STORE_NAME_char c = true → c ≠ "/"%char ∧ c ≠ "\"%char ∧ c ≠ "."%char.
Proof.
  intros Hc. repeat split; intros ->; vm_compute in Hc; discriminate.
Qed.

Lemma string_forallb_impl (p q : ascii → bool) s :
  (∀ c, p c = true → q c = true) → string_forallb p s = true → string_forallb q s = true.
Proof.
  intros Hpq. induction s as [|c s IH]; [done|]. cbn.
  rewrite !andb_true_iff. intros [Hc Hs]. auto.
Qed.

Lemma string_filter_forallb p s : string_forallb p (string_filter p s) = true.
Proof.
  induction s as [|c s IH]; [done|]. cbn.
  destruct (p c) eqn:Hc; [|done]. cbn. by rewrite Hc.
Qed.

Lemma is_empty_false s : is_empty s = false ↔ s ≠ "".
Proof. by destruct s. Qed.

(** X1.  A path that [entityPath] yields stays inside the directory of its
    store. *)
Theorem entityPath_confined storeName id dir stem :
  entityPath storeName id = Ok (dir, stem) →
  dir = storeName ∧ stem = safeId id
  ∧ dir ≠ "" ∧ lacks "/" dir ∧ lacks "\" dir ∧ lacks "." dir
  ∧ stem ≠ "" ∧ lacks "/" stem ∧ lacks "\" stem.
Proof.
  intros (Hs & Hne & [= -> ->])%entityPath_inv.
  unfold assertValidStoreName in Hs.
  destruct (negb (is_empty storeName) && STORE_NAME_REGEX_test storeName) eqn:Hv; [|done].
  apply andb_true_iff in Hv as [Hn Hre]. apply negb_true_iff, is_empty_false in Hn.
  unfold STORE_NAME_REGEX_test in Hre. apply andb_true_iff in Hre as [_ Hall].
  assert (Hdir : ∀ c, (∀ x, STORE_NAME_char x = true → x ≠ c) → lacks c storeName).
  { intros c Hc. unfold lacks. eapply string_forallb_impl; [|exact Hall].
    intros x Hx. cbn. apply negb_true_iff, Ascii.eqb_neq. by apply Hc. }
  assert (Hstem : ∀ c, (c = "/" ∨ c = "\")%char → lacks c (safeId id)).
  { intros c Hc. unfold lacks, safeId. eapply string_forallb_impl; [|apply string_filter_forallb].
    intros x. cbn. rewrite !negb_true_iff, orb_false_iff, !Ascii.eqb_neq.
    intros [? ?]. by destruct Hc as [-> | ->]. }
  split; [done|]. split; [done|]. split; [done|].
  split; [apply Hdir; intros x Hx; by apply STORE_NAME_char_plain in Hx as (? & ? & ?)|].
  split; [apply Hdir; intros x Hx; by apply STORE_NAME_char_plain in Hx as (? & ? & ?)|].
  split; [apply Hdir; intros x Hx; by apply STORE_NAME_char_plain in Hx as (? & ? & ?)|].
  split; [by apply is_empty_false|]. split; apply Hstem; auto.
Qed.

Lemma entityPath_confined_witness :
  entityPath "memos" "../a/b\c" = Ok ("memos", "..abc")
  ∧ "memos" = "memos" ∧ "..abc" = safeId "../a/b\c"
  ∧ "memos" ≠ "" ∧ lacks "/" "memos" ∧ lacks "\" "memos" ∧ lacks "." "memos"
  ∧ "..abc" ≠ "" ∧ lacks "/" "..abc" ∧ lacks "\" "..abc".
Proof.
  split; [reflexivity|].
  exact (entityPath_confined "memos" "../a/b\c" "memos" "..abc" eq_refl).
Defined.

(** ** Reading back what was written *)

(** X2.  [writeEntity] throws exactly when [entityPath] does; otherwise the
    entity is read back under its id, and under every id that strips to the
    same, while a read under any other id or in any other store gives what
    it gave before. *)
Theorem write_then_read fs storeName entity :
  (∀ msg, entityPath storeName (Entity.id entity) = Throw msg →
          writeEntity fs storeName entity = Throw msg)
  ∧ ∀ p, entityPath storeName (Entity.id entity) = Ok p →
      ∃ fs',
        writeEntity fs storeName entity = Ok fs'
        ∧ (∀ id, safeId id = safeId (Entity.id entity) →
                 readEntity fs' storeName id = Ok (Some entity))
        ∧ (∀ id, safeId id ≠ safeId (Entity.id entity) →
                 readEntity fs' storeName id = readEntity fs storeName id)
        ∧ (∀ storeName' id, storeName' ≠ storeName →
                 readEntity fs' storeName' id = readEntity fs storeName' id).
Proof.
  split.
  - intros msg Hp. unfold writeEntity, ensureStoreDir.
    destruct (assertValidStoreName storeName) as [[]|] eqn:Hs; cbn.
    + by rewrite Hp.
    + unfold entityPath in Hp. rewrite Hs in Hp. cbn in Hp. by injection Hp as ->.
  - intros p Hp. destruct (entityPath_inv _ _ _ Hp) as (Hs & Hne & Hpeq). subst p.
    exists (<[(storeName, safeId (Entity.id entity)) := Parsed entity]> fs).
    split; [by apply writeEntity_ok|]. split; [|split].
    + intros id Hid. rewrite (readEntity_same _ _ id (Entity.id entity) Hid).
      rewrite (readEntity_lookup _ _ _ Hp). by rewrite lookup_insert_eq.
    + intros id Hid. unfold readEntity.
      destruct (entityPath storeName id) as [q|] eqn:Hq; cbn; [|done].
      destruct (entityPath_inv _ _ _ Hq) as (_ & _ & ->).
      rewrite lookup_insert_ne; [done|]. intros [= Heq]. by rewrite Heq in Hid.
    + intros storeName' id Hneq. unfold readEntity.
      destruct (entityPath storeName' id) as [q|] eqn:Hq; cbn; [|done].
      destruct (entityPath_inv _ _ _ Hq) as (_ & _ & ->).
      rewrite lookup_insert_ne; [done|]. by intros [= Heq _].
Qed.

(** ** What a request changes *)

Lemma writeEntity_frame fs fs' storeName entity :
  writeEntity fs storeName entity = Ok fs' →
  fs' = <[(storeName, safeId (Entity.id entity)) := Parsed entity]> fs.
Proof.
  unfold writeEntity, ensureStoreDir.
  destruct (assertValidStoreName storeName) as [[]|]; cbn; [|done].
  destruct (entityPath storeName (Entity.id entity)) as [p|] eqn:Hp; cbn; [|done].
  destruct (entityPath_inv _ _ _ Hp) as (_ & _ & ->). by intros [= <-].
Qed.

(** The answers of the three writing handlers and the stores they leave:
    with 204 a single file of the store is written, with any other answer
    the store is as it was. *)
Lemma handlePost_effect fs fs' storeName req now r :
  handlePost fs storeName req now = Ok (r, fs') →
  (status r ≠ 204 ∧ fs' = fs)
  ∨ (r = {| status := 204; body := NoBody |}
     ∧ ∃ body id,
         req = Some body ∧ get_prop body "id" = Ok (Some id) ∧ id ≠ JNull
         ∧ readEntity fs storeName (ToString id) = Ok None
         ∧ fs' = <[(storeName, safeId (ToString id)) :=
                    Parsed {| Entity.id := ToString id; Entity.version := 1;
                              Entity.updatedAt := now;
                              Entity.payload := spread body |}]> fs).
Proof.
  destruct req as [body|]; [|intros [= <- <-]; by left].
  destruct (get_prop body "id") as [[id|]|] eqn:Hid.
  - assert (id = JNull ∨ id ≠ JNull) as [->|Hnull]
      by (destruct id; [by left|by right..]).
    { unfold handlePost. rewrite Hid. cbn. intros [= <- <-]. by left. }
    rewrite (handlePost_with_id _ _ _ _ _ Hid Hnull).
    destruct (readEntity fs storeName (ToString id)) as [[e|]|] eqn:Hr; cbn; [| |done].
    { intros [= <- <-]. by left. }
    destruct (writeEntity _ _ _) as [fs0|] eqn:Hw; cbn; [|done].
    intros [= <- <-]. right. split; [done|]. exists body, id.
    apply writeEntity_frame in Hw. done.
  - unfold handlePost. rewrite Hid. cbn. intros [= <- <-]. by left.
  - unfold handlePost. by rewrite Hid.
Qed.

Lemma handlePut_effect `{Runtime} fs fs' storeName id req now r :
  handlePut fs storeName id req now = Ok (r, fs') →
  (status r ≠ 204 ∧ fs' = fs)
  ∨ (r = {| status := 204; body := NoBody |}
     ∧ ∃ existing body,
         req = Some body ∧ readEntity fs storeName id = Ok (Some existing)
         ∧ fs' = <[(storeName, safeId (Entity.id existing)) :=
                    Parsed {| Entity.id := Entity.id existing;
                              Entity.version := Entity.version existing + 1;
                              Entity.updatedAt := now;
                              Entity.payload := spread body |}]> fs).
Proof.
  unfold handlePut.
  destruct (readEntity fs storeName id) as [[existing|]|] eqn:Hr; cbn; [| |done].
  2: { intros [= <- <-]. by left. }
  destruct req as [body|]; [|intros [= <- <-]; by left].
  destruct (get_prop body "version") as [version|]; cbn; [|done].
  destruct (number_ne _ _); [intros [= <- <-]; by left|].
  destruct (writeEntity _ _ _) as [fs0|] eqn:Hw; cbn; [|done].
  intros [= <- <-]. right. split; [done|]. exists existing, body.
  apply writeEntity_frame in Hw. done.
Qed.

Lemma handleDelete_effect fs fs' storeName id now r :
  handleDelete fs storeName id now = Ok (r, fs') →
  (status r ≠ 204 ∧ fs' = fs)
  ∨ (r = {| status := 204; body := NoBody |}
     ∧ ∃ existing,
         readEntity fs storeName id = Ok (Some existing)
         ∧ fs' = <[(storeName, safeId (Entity.id existing)) :=
                    Parsed {| Entity.id := Entity.id existing; Entity.version := -1;
                              Entity.updatedAt := now; Entity.payload := [] |}]> fs).
Proof.
  unfold handleDelete.
  destruct (readEntity fs storeName id) as [[existing|]|] eqn:Hr; cbn; [| |done].
  2: { intros [= <- <-]. by left. }
  destruct (writeEntity _ _ _) as [fs0|] eqn:Hw; cbn; [|done].
  intros [= <- <-]. right. split; [done|]. exists existing.
  apply writeEntity_frame in Hw. done.
Qed.

Section Effects.
Context `{Runtime}.

(** What [handleFetch] did, seen from its result: either the store is as it
    was, or the request was a POST, PUT or DELETE on a valid store name,
    answered 204, and one file of that store was written. *)
Lemma handleFetch_effect fs req now :
  (handleFetch fs req now).2 = fs
  ∨ ∃ storeName id stem c,
      path req = Some (storeName, id)
      ∧ assertValidStoreName storeName = Ok ()
      ∧ (handleFetch fs req now).1 = {| status := 204; body := NoBody |}
      ∧ (handleFetch fs req now).2 = <[(storeName, stem) := c]> fs
      ∧ (String.eqb (method req) "POST" || String.eqb (method req) "PUT"
         || String.eqb (method req) "DELETE") = true.
Proof.
  unfold handleFetch.
  destruct (String.eqb (method req) "OPTIONS") eqn:Hopt; [by left|].
  destruct (path req) as [[storeName id]|]; [|by left].
  destruct (assertValidStoreName storeName) as [[]|] eqn:Hs; [|by left].
  destruct id as [id|].
  - destruct (String.eqb (method req) "GET") eqn:Hget.
    { left. by destruct (readEntity fs storeName id). }
    destruct (String.eqb (method req) "PUT") eqn:Hput.
    { destruct (handlePut fs storeName id (json_body req) now) as [[r fs']|] eqn:Hp; [|by left].
      apply handlePut_effect in Hp as [[_ ->]|(-> & e & b & _ & _ & ->)]; [by left|].
      right. eexists _, _, _, _. split; [done|]. split; [done|]. split; [done|].
      split; [done|]. by rewrite orb_true_r. }
    destruct (String.eqb (method req) "DELETE") eqn:Hdel; [|by left].
    destruct (handleDelete fs storeName id now) as [[r fs']|] eqn:Hd; [|by left].
    apply handleDelete_effect in Hd as [[_ ->]|(-> & e & _ & ->)]; [by left|].
    right. eexists _, _, _, _. split; [done|]. split; [done|]. split; [done|].
    split; [done|]. by rewrite orb_true_r.
  - destruct (String.eqb (method req) "GET") eqn:Hget.
    { left. by destruct (handleGet fs storeName (query req)). }
    destruct (String.eqb (method req) "POST") eqn:Hpost; [|by left].
    destruct (handlePost fs storeName (json_body req) now) as [[r fs']|] eqn:Hp; [|by left].
    apply handlePost_effect in Hp as [[_ ->]|(-> & b & i & _ & _ & _ & _ & ->)]; [by left|].
    right. eexists _, _, _, _. split; [done|]. split; [done|]. split; [done|].
    split; [done|]. done.
Qed.

(** X3.  A request changes the store only when it is a POST, PUT or DELETE
    that is answered 204. *)
Theorem store_changes_only_on_204 fs req now :
  (handleFetch fs req now).2 ≠ fs →
  status (handleFetch fs req now).1 = 204
  ∧ (method req = "POST" ∨ method req = "PUT" ∨ method req = "DELETE").
Proof.
  intros Hchg.
  destruct (handleFetch_effect fs req now) as [Heq|(s & id & stem & c & _ & _ & Hr & _ & Hm)];
    [done|].
  rewrite Hr. split; [done|].
  rewrite !orb_true_iff, !String.eqb_eq in Hm. tauto.
Qed.

(** X4.  A request leaves the files of every store other than the one it
    names as they were, and a request without a parsable path changes
    nothing. *)
Theorem other_stores_untouched fs req now :
  ∀ storeName stem,
    (∀ id, path req ≠ Some (storeName, id)) →
    (handleFetch fs req now).2 !! (storeName, stem) = fs !! (storeName, stem).
Proof.
  intros storeName stem Hpath.
  destruct (handleFetch_effect fs req now) as [->|(s & id & stem' & c & Hp & _ & _ & -> & _)];
    [done|].
  rewrite lookup_insert_ne; [done|]. intros [= -> _]. by eapply Hpath.
Qed.

End Effects.

(** ** Answers without a handler *)


Section Routing.
Context `{Runtime}.

(** X5.  A request other than OPTIONS whose path has not one or two
    segments is answered 404; one that names an invalid store is answered
    400; one whose method the addressed resource does not offer (anything
    but GET and POST on a store, anything but GET, PUT and DELETE on a
    record) is answered 405.  None of them changes the store. *)
Theorem refused_requests fs req now :
  method req ≠ "OPTIONS" →
  (path req = None →
     handleFetch fs req now = ({| status := 404; body := ErrorJson "Not found" |}, fs))
  ∧ (∀ storeName id, path req = Some (storeName, id) →
       STORE_NAME_REGEX_test storeName = false →
       handleFetch fs req now
       = ({| status := 400; body := ErrorJson "Invalid store name" |}, fs))
  ∧ (∀ storeName, path req = Some (storeName, None) →
       STORE_NAME_REGEX_test storeName = true →
       method req ≠ "GET" → method req ≠ "POST" →
       handleFetch fs req now
       = ({| status := 405; body := Text "Method Not Allowed" |}, fs))
  ∧ (∀ storeName id, path req = Some (storeName, Some id) →
       STORE_NAME_REGEX_test storeName = true →
       method req ≠ "GET" → method req ≠ "PUT" → method req ≠ "DELETE" →
       handleFetch fs req now
       = ({| status := 405; body := Text "Method Not Allowed" |}, fs)).
Proof.
  intros Hopt%String.eqb_neq.
  assert (Hvalid : ∀ s, STORE_NAME_REGEX_test s = true → assertValidStoreName s = Ok ()).
  { intros s Hs. unfold assertValidStoreName. rewrite Hs.
    unfold STORE_NAME_REGEX_test in Hs. apply andb_true_iff in Hs as [-> _]. done. }
  unfold handleFetch. rewrite Hopt.
  split; [by intros ->|]. split; [|split].
  - intros storeName id -> Hs. unfold assertValidStoreName. rewrite Hs.
    by rewrite andb_false_r.
  - intros storeName -> Hs Hget%String.eqb_neq Hpost%String.eqb_neq.
    by rewrite (Hvalid _ Hs), Hget, Hpost.
  - intros storeName id -> Hs Hget%String.eqb_neq Hput%String.eqb_neq Hdel%String.eqb_neq.
    by rewrite (Hvalid _ Hs), Hget, Hput, Hdel.
Qed.


End Routing.

(** ** Requests in sequence *)

Section Sequences.
Context `{Runtime}.

Lemma serve_cons fs req now rest :
  serve fs ((req, now) :: rest)
  = ((handleFetch fs req now).1 :: (serve (handleFetch fs req now).2 rest).1,
     (serve (handleFetch fs req now).2 rest).2).
Proof.
  cbn. destruct (handleFetch fs req now) as [r fs']. cbn.
  by destruct (serve fs' rest).
Qed.

(** X7.  Whatever requests the server answers, starting from a store in the
    shape the handlers leave (the empty one for instance), the store keeps
    that shape: every file stem is a non-empty id without slashes and every
    parsed file holds a record whose id strips to the stem. *)
Theorem serve_keeps_shape fs reqs :
  store_wf fs = true → store_wf (serve fs reqs).2 = true.
Proof.
  revert fs. induction reqs as [|[req now] reqs IH]; intros fs Hwf; [done|].
  rewrite serve_cons. cbn. apply IH. by apply handleFetch_wf.
Qed.




End Sequences.

(** ** Listings *)

Lemma findIndex_None {A} (p : A → bool) l :
  (∀ x, x ∈ l → p x = false) → findIndex p l = None.
Proof.
  induction l as [|x l IH]; intros Hp; [done|]. cbn.
  rewrite (Hp x) by by left. rewrite IH; [done|]. intros y Hy. apply Hp. by right.
Qed.

(** The start index splits the list: no element before it passes the test,
    and the element at it, if there is one, does. *)
Lemma findIndex_split {A} (p : A → bool) l :
  let k := default (length l) (findIndex p l) in
  (∀ x, x ∈ take k l → p x = false)
  ∧ (∀ x, head (drop k l) = Some x → p x = true).
Proof.
  induction l as [|x l [IH1 IH2]]; cbn.
  - split; [by intros x ?%elem_of_nil|done].
  - destruct (p x) eqn:Hx; cbn.
    + split; [by intros y ?%elem_of_nil|]. by intros y [= <-].
    + destruct (findIndex p l) as [i|]; cbn in *.
      * split; [|done]. intros y [->|Hy]%elem_of_cons; auto.
      * split; [|done]. intros y [->|Hy]%elem_of_cons; auto.
Qed.

Section GenericOrder.
Context {A : Type} (cmp : A → A → option Z) (R : A → A → Prop).
Hypothesis R_trans : ∀ a b c, R a b → R b c → R a c.

(** Insertion keeps a list in the order [R] when the comparator never puts
    an element strictly before one that [R] puts first. *)
Lemma insert_sorted_ordered x l :
  StronglySorted R l →
  (∀ y, y ∈ l → if precedes cmp y x then R y x else R x y) →
  StronglySorted R (insert_sorted cmp x l).
Proof.
  induction l as [|y l IH]; intros Hl Hx; cbn.
  - by repeat constructor.
  - apply StronglySorted_cons in Hl as [Hy Hl].
    pose proof (Hx y ltac:(by left)) as Hxy.
    destruct (precedes cmp y x) eqn:Hp.
    + apply StronglySorted_cons. split.
      * rewrite insert_sorted_perm. by constructor.
      * apply IH; [done|]. intros z Hz. apply Hx. by right.
    + apply StronglySorted_cons. split.
      * constructor; [done|]. eapply Forall_impl; [exact Hy|]. intros z. by apply R_trans.
      * by apply StronglySorted_cons.
Qed.

Lemma sort_ordered l :
  (∀ x y, x ∈ l → y ∈ l → if precedes cmp y x then R y x else R x y) →
  StronglySorted R (sort cmp l).
Proof.
  induction l as [|x l IH]; intros Hl; [constructor|].
  change (sort cmp (x :: l)) with (insert_sorted cmp x (sort cmp l)).
  apply insert_sorted_ordered.
  - apply IH. intros a b Ha Hb. apply Hl; by right.
  - intros y Hy. rewrite sort_perm in Hy. apply Hl; [by left|by right].
Qed.

End GenericOrder.

Section Listings.
Context `{Runtime}.

Lemma sort_by_time all :
  (∀ e, e ∈ all → is_Some (Date_getTime (Entity.updatedAt e))) →
  StronglySorted not_later (sort compareCursor all).
Proof.
  intros Hdates. apply sort_ordered.
  - intros a b c (ta & tb & Ha & Hb & Hab) (tb' & tc & Hb' & Hc & Hbc).
    exists ta, tc. split; [done|]. split; [done|].
    assert (tb' = tb) by congruence. lia.
  - intros x y Hx Hy. destruct (Hdates x Hx) as [tx Htx], (Hdates y Hy) as [ty Hty].
    unfold precedes, compareCursor. rewrite Htx, Hty.
    destruct (Z.eqb_spec ty tx) as [->|Hne].
    + destruct (Z.ltb _ _); exists tx, tx; (split; [done|]); (split; [done|]); lia.
    + destruct (Z.ltb_spec (ty - tx) 0); [exists ty, tx|exists tx, ty];
        (split; [done|]); (split; [done|]); lia.
Qed.

End Listings.

Lemma omap_nil {A B} (f : A → option B) l :
  (∀ x, x ∈ l → f x = None) → omap f l = [].
Proof.
  induction l as [|x l IH]; intros Hf; [done|]. cbn.
  rewrite (Hf x) by by left. apply IH. intros y Hy. apply Hf. by right.
Qed.

Section Cursors.
Context `{Runtime}.

Lemma startIndex_no_date all afterIdVal :
  startIndex all (Some None) afterIdVal = length all.
Proof.
  unfold startIndex. destruct afterIdVal as [i|]; rewrite findIndex_None; try done.
  - intros x _. unfold number_gt, number_eq. by destruct (Date_getTime _).
  - intros x _. unfold number_gt. by destruct (Date_getTime _).
Qed.

(** A listing in terms of the cursor and the sorted records, for any size. *)
Lemma handleGet_from fs storeName url all :
  getAllEntities fs storeName = Ok all →
  let c := cursor (param_after url) (param_after_id url) in
  let rest := drop (startIndex (sort compareCursor all) c.1 c.2) (sort compareCursor all) in
  handleGet fs storeName url =
    Ok {| status := 200;
          body := match page_size (param_size url) with
                  | Some n => PageJson (take (Z.to_nat n) rest)
                                (bool_decide (Z.to_nat n < length rest)%nat)
                  | None => PageJson [] false
                  end |}.
Proof.
  intros Hall c rest. destruct (page_size (param_size url)) as [n|] eqn:Hn.
  - by apply handleGet_sorted_page.
  - by eapply handleGet_nan_size.
Qed.

(** X11.  A store without files, one never written to included, lists as the
    empty page with [hasMore] false, whatever the query. *)
Theorem empty_store_listing fs storeName url :
  STORE_NAME_REGEX_test storeName = true →
  (∀ stem, fs !! (storeName, stem) = None) →
  handleGet fs storeName url = Ok {| status := 200; body := PageJson [] false |}.
Proof.
  intros Hs Hnone.
  assert (Hall : getAllEntities fs storeName = Ok []).
  { unfold getAllEntities, listEntityIds, assertValidStoreName. rewrite Hs.
    unfold STORE_NAME_REGEX_test in Hs. apply andb_true_iff in Hs as [-> _]. cbn.
    rewrite omap_nil; [done|].
    intros [[s stem] c] Hin%elem_of_map_to_list. cbn.
    destruct (String.eqb_spec s storeName) as [->|]; [|done]. by rewrite Hnone in Hin. }
  rewrite (handleGet_from _ _ _ _ Hall). cbn.
  destruct (page_size (param_size url)); [|done].
  by rewrite drop_nil, take_nil.
Qed.

(** X12.  For a size that [parseInt] reads as the number [m], and for an absent
    size with [m] = 100, the page has at most [min (max 1 m) 1000] records of
    the store; [hasMore] is true exactly when more than that many records
    stand from the start index on, and then the page is full. *)
Theorem numeric_size_page fs storeName url all m :
  getAllEntities fs storeName = Ok all →
  parseInt (default "100" (param_size url)) = Some m →
  let limit := Z.min (Z.max 1 m) 1000 in
  let c := cursor (param_after url) (param_after_id url) in
  let rest := drop (startIndex (sort compareCursor all) c.1 c.2) (sort compareCursor all) in
  ∃ data hasMore,
    handleGet fs storeName url = Ok {| status := 200; body := PageJson data hasMore |}
    ∧ (1 ≤ limit ≤ 1000)%Z
    ∧ (param_size url = None → limit = 100)
    ∧ (length data ≤ Z.to_nat limit)%nat
    ∧ (∀ e, e ∈ data → e ∈ all)
    ∧ (hasMore = true ↔ (Z.to_nat limit < length rest)%nat)
    ∧ (hasMore = true → length data = Z.to_nat limit).
Proof.
  intros Hall Hm limit c rest.
  assert (Hn : page_size (param_size url) = Some limit).
  { unfold page_size. by rewrite Hm. }
  rewrite (handleGet_sorted_page _ _ _ _ _ Hall Hn). fold c rest.
  eexists _, _. split; [done|]. split; [unfold limit; lia|].
  split.
  { intros Hsize. rewrite Hsize in Hm. injection Hm as <-. done. }
  split; [rewrite length_take; lia|].
  split.
  { intros e He%subseteq_take%subseteq_drop. by rewrite sort_perm in He. }
  split; [by rewrite bool_decide_eq_true|].
  intros Hmore%bool_decide_eq_true. rewrite length_take. lia.
Qed.

(** X13.  An [after_id] without [after] (or with an empty one) is no cursor:
    the listing is that of the start of the feed. *)
Theorem after_id_alone fs storeName size after afterId :
  truthy after = false →
  handleGet fs storeName
    {| param_size := size; param_after := after; param_after_id := afterId |}
  = handleGet fs storeName
      {| param_size := size; param_after := None; param_after_id := None |}.
Proof.
  intros Hafter. unfold handleGet. cbn [param_size param_after param_after_id].
  unfold cursor. rewrite Hafter. cbn [truthy].
  by destruct (truthy afterId).
Qed.

(** X14.  A cursor whose timestamp is not a date gives the empty page with
    [hasMore] false, not an error: no record is after a time that is NaN. *)
Theorem invalid_cursor_date fs storeName size T afterId all :
  getAllEntities fs storeName = Ok all →
  T ≠ "" → Date_getTime T = None →
  truthy afterId = true ∨ lacks "," T →
  handleGet fs storeName
    {| param_size := size; param_after := Some T; param_after_id := afterId |}
  = Ok {| status := 200; body := PageJson [] false |}.
Proof.
  intros Hall HT Hdate Hform.
  assert (Htruthy : truthy (Some T) = true) by by destruct T.
  assert (Hc : (cursor (Some T) afterId).1 = Some None).
  { unfold cursor. rewrite Htruthy. cbn [default from_option id].
    destruct (truthy afterId) eqn:Hid; [by rewrite Hdate|].
    destruct Hform as [|Hcomma]; [done|].
    by rewrite (split_comma_lacks _ Hcomma), Hdate. }
  rewrite (handleGet_from _ _ _ _ Hall). cbn [param_size param_after param_after_id].
  destruct (cursor (Some T) afterId) as [d i]. cbn in Hc. subst d. cbn [fst snd].
  rewrite startIndex_no_date, drop_all.
  destruct (page_size size); [|done]. by rewrite take_nil.
Qed.

(** X15.  With a timestamp alone as cursor, every record of the page is
    strictly later than it, at any collation of the ids; and when [hasMore]
    is false the page holds every record of the store that is later. *)
Theorem after_timestamp_only fs storeName size T afterId all t n :
  getAllEntities fs storeName = Ok all →
  (∀ e, e ∈ all → is_Some (Date_getTime (Entity.updatedAt e))) →
  T ≠ "" → lacks "," T → Date_getTime T = Some t →
  truthy afterId = false →
  page_size size = Some n →
  ∃ data hasMore,
    handleGet fs storeName
      {| param_size := size; param_after := Some T; param_after_id := afterId |}
    = Ok {| status := 200; body := PageJson data hasMore |}
    ∧ (∀ e, e ∈ data → later_than t e)
    ∧ (hasMore = false → ∀ e, e ∈ all → later_than t e → e ∈ data)
    ∧ (hasMore = true → length data = Z.to_nat n).
Proof.
  intros Hall Hdates HT Hcomma Hdate Hid Hn.
  assert (Htruthy : truthy (Some T) = true) by by destruct T.
  rewrite (handleGet_sorted_page fs storeName
             {| param_size := size; param_after := Some T; param_after_id := afterId |}
             all n Hall Hn).
  cbn [param_size param_after param_after_id].
  assert (Hc : cursor (Some T) afterId = (Some (Some t), None)).
  { unfold cursor. rewrite Hid, Htruthy. cbn [default from_option id].
    by rewrite (split_comma_lacks _ Hcomma), Hdate. }
  rewrite Hc. cbn [fst snd startIndex].
  set (sorted := sort compareCursor all).
  set (p := λ e : Entity, number_gt (Date_getTime (Entity.updatedAt e)) (Some t)).
  set (k := default (length sorted) (findIndex p sorted)).
  destruct (findIndex_split p sorted) as [Hbefore Hat]. fold k in Hbefore, Hat.
  assert (Hp : ∀ e, p e = true ↔ later_than t e).
  { intros e. unfold p, later_than, number_gt.
    destruct (Date_getTime (Entity.updatedAt e)) as [te|].
    - rewrite Z.ltb_lt. split; [eauto|]. by intros (? & [= <-] & ?).
    - split; [done|]. by intros (? & ? & _). }
  assert (Hsorted : StronglySorted not_later (drop k sorted)).
  { pose proof (sort_by_time all Hdates) as Hs. fold sorted in Hs.
    rewrite <- (take_drop k sorted) in Hs. by apply StronglySorted_app in Hs as (_ & _ & ?). }
  assert (Hafter : ∀ e, e ∈ drop k sorted → later_than t e).
  { destruct (drop k sorted) as [|y rest] eqn:Hd; [by intros e ?%elem_of_nil|].
    assert (Hy : later_than t y) by by apply Hp, Hat.
    apply StronglySorted_cons in Hsorted as [Hrest _].
    intros e [->|He]%elem_of_cons; [done|].
    rewrite Forall_forall in Hrest.
    destruct (Hrest e He) as (ty & te & Hty & Hte & Hle), Hy as (ty' & Hty' & Hlt).
    exists te. split; [done|]. assert (ty' = ty) by congruence. lia. }
  pose proof (page_size_range _ _ Hn) as Hrange.
  eexists _, _. split; [done|]. split; [|split].
  - intros e He%subseteq_take. by apply Hafter.
  - intros Hlast%bool_decide_eq_false e He Hlater.
    rewrite take_ge by lia.
    assert (Hin : e ∈ app (take k sorted) (drop k sorted)).
    { rewrite take_drop. unfold sorted. by rewrite sort_perm. }
    apply elem_of_app in Hin as [Hin|Hin]; [|done].
    apply Hbefore in Hin. apply Hp in Hlater. congruence.
  - intros Hmore%bool_decide_eq_true. rewrite length_take. lia.
Qed.

End Cursors.

(** ** The path of a request *)

Lemma split_on_lacks sep s x : x ∈ split_on sep s → lacks sep x.
Proof.
  revert x. induction s as [|c s IH]; intros x; cbn.
  - by intros ->%list_elem_of_singleton.
  - destruct (Ascii.eqb_spec c sep) as [->|Hne].
    + intros [->|Hx]%elem_of_cons; [done|]. by apply IH.
    + destruct (split_on sep s) as [|part parts].
      { intros ->%list_elem_of_singleton. by apply lacks_cons. }
      intros [->|Hx]%elem_of_cons.
      * apply lacks_cons. split; [done|]. apply IH. by left.
      * apply IH. by right.
Qed.

Lemma split_on_whole sep s : lacks sep s → split_on sep s = [s].
Proof.
  induction s as [|c s IH]; [done|]. intros [Hc Hs]%lacks_cons. cbn.
  apply Ascii.eqb_neq in Hc. rewrite Hc. by rewrite (IH Hs).
Qed.

Lemma split_on_joined sep a b :
  lacks sep a → split_on sep (a +:+ String sep b) = a :: split_on sep b.
Proof.
  induction a as [|c a IH]; intros Ha.
  - change (split_on sep (String sep b) = "" :: split_on sep b). cbn.
    by rewrite Ascii.eqb_refl.
  - apply lacks_cons in Ha as [Hc Ha].
    change (split_on sep (String c (a +:+ String sep b)) = String c a :: split_on sep b).
    cbn [split_on]. apply Ascii.eqb_neq in Hc. rewrite Hc. by rewrite (IH Ha).
Qed.

(** X16.  The store name and the id that [parsePath] yields are not empty and
    contain no ['/']. *)
Theorem parsePath_segments pathname storeName id :
  parsePath pathname = Some (storeName, id) →
  storeName ≠ "" ∧ lacks "/" storeName
  ∧ ∀ i, id = Some i → i ≠ "" ∧ lacks "/" i.
Proof.
  unfold parsePath.
  assert (Hseg : ∀ x,
    x ∈ List.filter (λ segment, negb (is_empty segment)) (split_on "/" pathname) →
    x ≠ "" ∧ lacks "/" x).
  { intros x [Hx Hne]%list_elem_of_In%filter_In. split.
    - apply is_empty_false. by apply negb_true_iff.
    - eapply split_on_lacks. by apply list_elem_of_In. }
  destruct (List.filter _ _) as [|s [|i [|]]]; [done| | |done].
  - intros [= <- <-]. destruct (Hseg s) as [? ?]; [by left|]. done.
  - intros [= <- <-]. destruct (Hseg s) as [? ?]; [by left|].
    destruct (Hseg i) as [? ?]; [by right; left|].
    split; [done|]. split; [done|]. by intros ? [= <-].
Qed.

(** X17.  The pathname made of a store name, and of a store name and an id,
    none empty and none with a ['/'], is parsed back into them; a slash at the
    end changes nothing. *)
Theorem parsePath_of_segments storeName id :
  storeName ≠ "" → lacks "/" storeName → id ≠ "" → lacks "/" id →
  parsePath ("/" +:+ storeName) = Some (storeName, None)
  ∧ parsePath ("/" +:+ storeName +:+ "/") = Some (storeName, None)
  ∧ parsePath ("/" +:+ storeName +:+ "/" +:+ id) = Some (storeName, Some id)
  ∧ parsePath ("/" +:+ storeName +:+ "/" +:+ id +:+ "/") = Some (storeName, Some id).
Proof.
  intros Hs Hls Hi Hli. unfold parsePath.
  assert (Hes : is_empty storeName = false) by by apply is_empty_false.
  assert (Hei : is_empty id = false) by by apply is_empty_false.
  change ("/" +:+ storeName) with ("" +:+ String "/" storeName).
  change ("/" +:+ storeName +:+ "/") with ("" +:+ String "/" (storeName +:+ String "/" "")).
  change ("/" +:+ storeName +:+ "/" +:+ id)
    with ("" +:+ String "/" (storeName +:+ String "/" id)).
  change ("/" +:+ storeName +:+ "/" +:+ id +:+ "/")
    with ("" +:+ String "/" (storeName +:+ String "/" (id +:+ String "/" ""))).
  rewrite !(split_on_joined "/" "") by done.
  rewrite !(split_on_joined "/" storeName) by done.
  rewrite (split_on_joined "/" id) by done.
  rewrite !split_on_whole by done.
  cbn. rewrite Hes, Hei. done.
Qed.

(** ** The file of a request *)

Section OwnFile.
Context `{Runtime}.


End OwnFile.

(** ** Creates without an id *)

(** X19.  A create whose body does not parse, is a value other than an object
    and [null], or is an object without [id] or with an [id] that is [null],
    is answered 400 and stores nothing; no file is read for it. *)
Theorem create_needs_id fs storeName now :
  handlePost fs storeName None now
    = Ok ({| status := 400; body := Text "Bad Request" |}, fs)
  ∧ (∀ body, body ≠ JNull → (∀ members, body ≠ JObj members) →
       handlePost fs storeName (Some body) now
       = Ok ({| status := 400; body := Text "Bad Request" |}, fs))
  ∧ (∀ members,
       lookup_member "id" members = None ∨ lookup_member "id" members = Some JNull →
       handlePost fs storeName (Some (JObj members)) now
       = Ok ({| status := 400; body := Text "Bad Request" |}, fs)).
Proof.
  split; [done|]. split.
  - intros body Hnull Hobj. unfold handlePost.
    destruct body; try done. by destruct (Hobj members).
  - intros members [Hid|Hid]; unfold handlePost; cbn; by rewrite Hid.
Qed.

(** ** The further properties at work *)

Lemma store_changes_only_on_204_witness :
  (handleFetch (H := sample_runtime) store_a
     (store_request "POST" "memos" no_query (Some (JObj [("id", JStr "b")]))) stamp0).2
    ≠ store_a
  ∧ status (handleFetch (H := sample_runtime) store_a
              (store_request "POST" "memos" no_query (Some (JObj [("id", JStr "b")])))
              stamp0).1 = 204
  ∧ (method (store_request "POST" "memos" no_query (Some (JObj [("id", JStr "b")]))) = "POST"
     ∨ method (store_request "POST" "memos" no_query (Some (JObj [("id", JStr "b")]))) = "PUT"
     ∨ method (store_request "POST" "memos" no_query (Some (JObj [("id", JStr "b")])))
       = "DELETE").
Proof.
  assert (Hne : (handleFetch (H := sample_runtime) store_a
                   (store_request "POST" "memos" no_query (Some (JObj [("id", JStr "b")])))
                   stamp0).2 ≠ store_a).
  { intros Heq. apply (f_equal (λ m : FS, m !! ("memos", "b"))) in Heq.
    vm_compute in Heq. discriminate. }
  split; [exact Hne|].
  exact (store_changes_only_on_204 (H := sample_runtime) store_a _ stamp0 Hne).
Defined.

Lemma other_stores_untouched_witness :
  (∀ id, path (point_request "DELETE" "memos" "a" None) ≠ Some ("todos", id))
  ∧ (handleFetch (H := sample_runtime) store_a (point_request "DELETE" "memos" "a" None)
       stamp1).2 !! ("todos", "a")
    = store_a !! ("todos", "a").
Proof.
  assert (Hpath : ∀ id, path (point_request "DELETE" "memos" "a" None) ≠ Some ("todos", id))
    by (intros id; discriminate).
  split; [exact Hpath|].
  exact (other_stores_untouched (H := sample_runtime) store_a
           (point_request "DELETE" "memos" "a" None) stamp1 "todos" "a" Hpath).
Defined.

Lemma refused_requests_witness :
  method (store_request "PATCH" "memos" no_query None) ≠ "OPTIONS"
  ∧ path (store_request "PATCH" "memos" no_query None) = Some ("memos", None)
  ∧ STORE_NAME_REGEX_test "memos" = true
  ∧ handleFetch (H := sample_runtime) store_a (store_request "PATCH" "memos" no_query None)
      stamp1
    = ({| status := 405; body := Text "Method Not Allowed" |}, store_a)
  ∧ STORE_NAME_REGEX_test "me.mos" = false
  ∧ handleFetch (H := sample_runtime) store_a (point_request "GET" "me.mos" "a" None) stamp1
    = ({| status := 400; body := ErrorJson "Invalid store name" |}, store_a).
Proof.
  assert (Hm : method (store_request "PATCH" "memos" no_query None) ≠ "OPTIONS")
    by discriminate.
  assert (Hg : method (point_request "GET" "me.mos" "a" None) ≠ "OPTIONS") by discriminate.
  split; [exact Hm|]. split; [reflexivity|]. split; [reflexivity|].
  split.
  - apply (proj1 (proj2 (proj2 (refused_requests (H := sample_runtime) store_a
                                  (store_request "PATCH" "memos" no_query None) stamp1 Hm)))
             "memos" eq_refl eq_refl); discriminate.
  - split; [reflexivity|].
    exact (proj1 (proj2 (refused_requests (H := sample_runtime) store_a
                           (point_request "GET" "me.mos" "a" None) stamp1 Hg))
             "me.mos" (Some "a") eq_refl eq_refl).
Defined.


Lemma serve_keeps_shape_witness :
  store_wf ∅ = true
  ∧ store_wf
      (serve (H := sample_runtime) ∅
         [(store_request "POST" "memos" no_query (Some (JObj [("id", JStr "a/b")])), stamp0);
          (point_request "PUT" "memos" "ab" (Some (JObj [("version", JNum 2)])), stamp1);
          (point_request "DELETE" "memos" "ab" None, stamp1)]).2 = true.
Proof.
  assert (Hwf : store_wf ∅ = true) by (vm_compute; reflexivity).
  split; [exact Hwf|].
  exact (serve_keeps_shape (H := sample_runtime) ∅ _ Hwf).
Defined.




Lemma empty_store_listing_witness :
  STORE_NAME_REGEX_test "memos" = true
  ∧ (∀ stem, (∅ : FS) !! ("memos", stem) = None)
  ∧ handleGet (H := sample_runtime) ∅ "memos"
      {| param_size := Some "5"; param_after := Some stamp0; param_after_id := Some "a" |}
    = Ok {| status := 200; body := PageJson [] false |}.
Proof.
  assert (Hnone : ∀ stem, (∅ : FS) !! ("memos", stem) = None)
    by (intros stem; apply lookup_empty).
  split; [reflexivity|]. split; [exact Hnone|].
  exact (empty_store_listing (H := sample_runtime) ∅ "memos" _ eq_refl Hnone).
Defined.

Lemma numeric_size_page_witness :
  getAllEntities store_aB "memos" = Ok [record_a; record_B]
  ∧ parseInt (default "100" (Some "5000")) = Some 5000
  ∧ ∃ data hasMore,
      handleGet (H := sample_runtime) store_aB "memos"
        {| param_size := Some "5000"; param_after := None; param_after_id := None |}
      = Ok {| status := 200; body := PageJson data hasMore |}
      ∧ (length data ≤ Z.to_nat (Z.min (Z.max 1 5000) 1000))%nat.
Proof.
  assert (Hall : getAllEntities store_aB "memos" = Ok [record_a; record_B])
    by (vm_compute; reflexivity).
  assert (Hm : parseInt (default "100" (Some "5000")) = Some 5000) by reflexivity.
  split; [exact Hall|]. split; [exact Hm|].
  destruct (numeric_size_page (H := sample_runtime) store_aB "memos"
              {| param_size := Some "5000"; param_after := None; param_after_id := None |}
              [record_a; record_B] 5000 Hall Hm)
    as (data & hasMore & Hget & _ & _ & Hlen & _).
  exists data, hasMore. split; [exact Hget|exact Hlen].
Defined.

Lemma after_id_alone_witness :
  truthy None = false
  ∧ handleGet (H := sample_runtime) store_aB "memos"
      {| param_size := None; param_after := None; param_after_id := Some "a" |}
    = handleGet (H := sample_runtime) store_aB "memos"
        {| param_size := None; param_after := None; param_after_id := None |}.
Proof.
  split; [reflexivity|].
  exact (after_id_alone (H := sample_runtime) store_aB "memos" None None (Some "a") eq_refl).
Defined.

Lemma invalid_cursor_date_witness :
  getAllEntities store_aB "memos" = Ok [record_a; record_B]
  ∧ "yesterday" ≠ ""
  ∧ Date_getTime (Runtime := sample_runtime) "yesterday" = None
  ∧ (truthy (Some "a") = true ∨ lacks "," "yesterday")
  ∧ handleGet (H := sample_runtime) store_aB "memos"
      {| param_size := None; param_after := Some "yesterday"; param_after_id := Some "a" |}
    = Ok {| status := 200; body := PageJson [] false |}.
Proof.
  assert (Hall : getAllEntities store_aB "memos" = Ok [record_a; record_B])
    by (vm_compute; reflexivity).
  assert (HT : "yesterday" ≠ "") by discriminate.
  assert (Hd : Date_getTime (Runtime := sample_runtime) "yesterday" = None)
    by (vm_compute; reflexivity).
  assert (Hf : truthy (Some "a") = true ∨ lacks "," "yesterday") by (left; reflexivity).
  split; [exact Hall|]. split; [exact HT|]. split; [exact Hd|]. split; [exact Hf|].
  exact (invalid_cursor_date (H := sample_runtime) store_aB "memos" None "yesterday"
           (Some "a") _ Hall HT Hd Hf).
Defined.

Lemma after_timestamp_only_witness :
  getAllEntities store_aB "memos" = Ok [record_a; record_B]
  ∧ (∀ e, e ∈ [record_a; record_B] →
          is_Some (Date_getTime (Runtime := sample_runtime) (Entity.updatedAt e)))
  ∧ "2023-12-31T23:59:59.999Z" ≠ ""
  ∧ lacks "," "2023-12-31T23:59:59.999Z"
  ∧ Date_getTime (Runtime := sample_runtime) "2023-12-31T23:59:59.999Z"
    = Some 1704067199999
  ∧ truthy None = false
  ∧ page_size (Some "1") = Some 1
  ∧ ∃ data hasMore,
      handleGet (H := sample_runtime) store_aB "memos"
        {| param_size := Some "1"; param_after := Some "2023-12-31T23:59:59.999Z";
           param_after_id := None |}
      = Ok {| status := 200; body := PageJson data hasMore |}
      ∧ (∀ e, e ∈ data → later_than (H := sample_runtime) 1704067199999 e)
      ∧ (hasMore = true → length data = Z.to_nat 1).
Proof.
  assert (Hall : getAllEntities store_aB "memos" = Ok [record_a; record_B])
    by (vm_compute; reflexivity).
  assert (Hdates : ∀ e, e ∈ [record_a; record_B] →
            is_Some (Date_getTime (Runtime := sample_runtime) (Entity.updatedAt e))).
  { intros e He. apply elem_of_cons in He as [->|He]; [vm_compute; by eexists|].
    apply list_elem_of_singleton in He as ->. vm_compute. by eexists. }
  assert (HT : "2023-12-31T23:59:59.999Z" ≠ "") by discriminate.
  assert (Hc : lacks "," "2023-12-31T23:59:59.999Z") by reflexivity.
  assert (Hd : Date_getTime (Runtime := sample_runtime) "2023-12-31T23:59:59.999Z"
               = Some 1704067199999) by (vm_compute; reflexivity).
  assert (Hn : page_size (Some "1") = Some 1) by reflexivity.
  split; [exact Hall|]. split; [exact Hdates|]. split; [exact HT|]. split; [exact Hc|].
  split; [exact Hd|]. split; [reflexivity|]. split; [exact Hn|].
  destruct (after_timestamp_only (H := sample_runtime) store_aB "memos" (Some "1")
              "2023-12-31T23:59:59.999Z" None [record_a; record_B] 1704067199999 1
              Hall Hdates HT Hc Hd eq_refl Hn)
    as (data & hasMore & Hget & Hlater & _ & Hfull).
  exists data, hasMore. split; [exact Hget|]. split; [exact Hlater|exact Hfull].
Defined.

Lemma parsePath_segments_witness :
  parsePath "/memos//a/" = Some ("memos", Some "a")
  ∧ "memos" ≠ "" ∧ lacks "/" "memos"
  ∧ ∀ i, Some "a" = Some i → i ≠ "" ∧ lacks "/" i.
Proof.
  split; [reflexivity|].
  exact (parsePath_segments "/memos//a/" "memos" (Some "a") eq_refl).
Defined.

Lemma parsePath_of_segments_witness :
  "memos" ≠ "" ∧ lacks "/" "memos" ∧ "a\b" ≠ "" ∧ lacks "/" "a\b"
  ∧ parsePath ("/" +:+ "memos") = Some ("memos", None)
  ∧ parsePath ("/" +:+ "memos" +:+ "/") = Some ("memos", None)
  ∧ parsePath ("/" +:+ "memos" +:+ "/" +:+ "a\b") = Some ("memos", Some "a\b")
  ∧ parsePath ("/" +:+ "memos" +:+ "/" +:+ "a\b" +:+ "/") = Some ("memos", Some "a\b").
Proof.
  assert (Hs : "memos" ≠ "") by discriminate.
  assert (Hi : "a\b" ≠ "") by discriminate.
  assert (Hls : lacks "/" "memos") by reflexivity.
  assert (Hli : lacks "/" "a\b") by reflexivity.
  split; [exact Hs|]. split; [exact Hls|]. split; [exact Hi|]. split; [exact Hli|].
  exact (parsePath_of_segments "memos" "a\b" Hs Hls Hi Hli).
Defined.


Lemma paging_exhaustive_witness :
  store_wf store_ab = true
  ∧ assertValidStoreName "memos" = Ok ()
  ∧ page_size (Some "1") = Some 1
  ∧ Date_getTime (Runtime := sample_runtime) "" = None
  ∧ omap (parsed_in "memos") (map_to_list store_ab) = [record_a; record_b]
  ∧ (∀ e, e ∈ [record_a; record_b] →
          is_Some (Date_getTime (Runtime := sample_runtime) (Entity.updatedAt e)))
  ∧ collation_agrees (H := sample_runtime) [record_a; record_b]
  ∧ (length [record_a; record_b] < 3)%nat
  ∧ ∃ feed,
      pull (H := sample_runtime) 3 store_ab "memos" (Some "1") None None = Ok feed
      ∧ feed ≡ₚ [record_a; record_b] ∧ NoDup feed
      ∧ StronglySorted (feed_lt (H := sample_runtime)) feed.
Proof.
  assert (Hwf : store_wf store_ab = true) by (vm_compute; reflexivity).
  assert (Hall : omap (parsed_in "memos") (map_to_list store_ab) = [record_a; record_b])
    by (vm_compute; reflexivity).
  assert (Hdates : ∀ e, e ∈ [record_a; record_b] →
            is_Some (Date_getTime (Runtime := sample_runtime) (Entity.updatedAt e))).
  { intros e He. apply elem_of_cons in He as [->|He]; [vm_compute; by eexists|].
    apply list_elem_of_singleton in He as ->. vm_compute. by eexists. }
  assert (Hcoll : collation_agrees (H := sample_runtime) [record_a; record_b]).
  { intros x y Hx Hy.
    apply elem_of_cons in Hx as [->|Hx]; [|apply list_elem_of_singleton in Hx as ->];
      (apply elem_of_cons in Hy as [->|Hy]; [|apply list_elem_of_singleton in Hy as ->]);
      vm_compute; split; congruence. }
  assert (Hlen : (length [record_a; record_b] < 3)%nat) by (cbn; lia).
  pose proof (paging_exhaustive (H := sample_runtime) store_ab "memos" (Some "1") 1 3
                Hwf eq_refl eq_refl eq_refl) as Hp.
  cbv zeta in Hp. rewrite Hall in Hp.
  split; [exact Hwf|]. split; [reflexivity|]. split; [reflexivity|]. split; [reflexivity|].
  split; [exact Hall|]. split; [exact Hdates|]. split; [exact Hcoll|]. split; [exact Hlen|].
  exact (Hp Hdates Hcoll Hlen).
Defined.
